(** * Landmark normalisation and hand-line features of [preprocessing_module.py]

    A shallow embedding of the numeric core of the module: the key-point
    selector and flattener of [PreprocessingPipeline], the [Normalizer] and the
    [Calculator].  Scalars are real numbers: the development reasons about the
    arithmetic the code writes down, not about its rounding.  What the
    interpreter and NumPy do on a zero divisor is kept: Python's float division
    raises [ZeroDivisionError], NumPy's array division yields [nan] or an
    infinity.

    Module [F64] embeds the [Normalizer] a second time, over binary64 as the
    interpreter and NumPy compute: it is there for what rounding and overflow
    decide, which the real numbers cannot show. *)

From Stdlib Require Import Reals Lra Lia List Arith.
From Stdlib Require Ascii String.
From Stdlib Require Floats.
Import ListNotations.

Open Scope R_scope.

(** ** The run-time: exceptions, indexing, float division *)

Module Py.

Inductive exn : Type :=
| ZeroDivisionError
| ValueError
| IndexError.

Inductive result (A : Type) : Type :=
| Ok (a : A)
| Raise (e : exn).

Arguments Ok {A} a.
Arguments Raise {A} e.

Definition bind {A B : Type} (m : result A) (k : A -> result B) : result B :=
  match m with
  | Ok a => k a
  | Raise e => Raise e
  end.

(** [l[i]] on a sequence, for a non-negative index. *)
Definition getitem {A : Type} (l : list A) (i : nat) : result A :=
  match nth_error l i with
  | Some a => Ok a
  | None => Raise IndexError
  end.

(** [a / b] on Python floats. *)
Definition truediv (a b : R) : result R :=
  if Req_dec_T b 0 then Raise ZeroDivisionError else Ok (a / b).

(** [math.hypot(a, b)]. *)
Definition hypot (a b : R) : R := sqrt (a * a + b * b).

(** [for x in l: acc = body(acc, x)], where the body may raise. *)
Fixpoint for_each {A S : Type} (body : S -> A -> result S) (l : list A) (acc : S)
  : result S :=
  match l with
  | [] => Ok acc
  | x :: t => bind (body acc x) (for_each body t)
  end.

End Py.

Import Py.

Declare Scope py_scope.
Delimit Scope py_scope with py.
Notation "x <- m ;; k" := (bind m (fun x => k))
  (at level 61, m at next level, right associativity) : py_scope.
Open Scope py_scope.

(** ** NumPy: the array operations the module calls *)

Module Np.

(** A [float64] as the code can produce one: a real, or what a division by
    zero leaves behind. *)
Inductive float64 : Type :=
| Fin (r : R)
| PosInf
| NegInf
| NaN.

(** [x / d] on NumPy scalars and arrays (a warning, never an exception). *)
Definition true_divide (x d : R) : float64 :=
  if Req_dec_T d 0 then
    if Req_dec_T x 0 then NaN
    else if Rlt_dec 0 x then PosInf else NegInf
  else Fin (x / d).

(** A row of a two-column array. *)
Abbreviation Point := (R * R)%type.

(** [np.array(part).flatten()] for a list of two-element rows. *)
Definition flatten (part : list Point) : list R :=
  flat_map (fun p => [fst p; snd p]) part.

(** [np.array(row).flatten()] for one row [[x, y]]. *)
Definition flatten_row (p : Point) : list R := [fst p; snd p].

(** [np.concatenate(arrays)]: an empty list of arrays is refused. *)
Definition concatenate (arrays : list (list R)) : result (list R) :=
  match arrays with
  | [] => Raise ValueError
  | _ => Ok (concat arrays)
  end.

Fixpoint rows (l : list R) : list Point :=
  match l with
  | x :: y :: t => (x, y) :: rows t
  | _ => []
  end.

(** [a.reshape(n, 2)]: the size has to be [n * 2]. *)
Definition reshape (n : nat) (a : list R) : result (list Point) :=
  if Nat.eqb (length a) (n * 2) then Ok (rows a) else Raise ValueError.

(** [np.min(a)] and [np.max(a)]: an empty array is refused. *)
Definition min (a : list R) : result R :=
  match a with
  | [] => Raise ValueError
  | x :: t => Ok (fold_left Rmin t x)
  end.

Definition max (a : list R) : result R :=
  match a with
  | [] => Raise ValueError
  | x :: t => Ok (fold_left Rmax t x)
  end.

(** [np.ptp(a)]: peak to peak, [max - min]. *)
Definition ptp (a : list R) : result R :=
  hi <- max a ;;
  lo <- min a ;;
  Ok (hi - lo).

(** [np.zeros((n, 2))]. *)
Definition zeros (n : nat) : list Point := repeat (0, 0) n.

End Np.

Import Np.

(** ** PreprocessingPipeline: key-point selection and flattening *)

(** What the detector reports for a frame: each group is there or not. *)
Record Results : Type := {
  pose_landmarks : option (list Point);
  left_hand_landmarks : option (list Point);
  right_hand_landmarks : option (list Point)
}.

(** [[right shoulder, head, left shoulder]]. *)
Definition shoulder_points_idx : list nat := [12; 0; 11]%nat.

Definition _get_keypoints (results : Results) : result (list (list Point)) :=
  let pose :=
    match pose_landmarks results with
    | Some l => l
    | None => zeros 33
    end in
  shoulders <-
    for_each (fun acc p => v <- getitem pose p ;; Ok (acc ++ [v]))
             shoulder_points_idx [] ;;
  let lhand :=
    match left_hand_landmarks results with
    | Some l => l
    | None => zeros 21
    end in
  let rhand :=
    match right_hand_landmarks results with
    | Some l => l
    | None => zeros 21
    end in
  Ok [shoulders; lhand; rhand].

Definition _flatten (keys : list (list Point)) : result (list R) :=
  concatenate (map flatten keys).

(** ** Normalizer *)

Record Normalizer : Type := { base_shoulder_scale : R }.

(** [Normalizer()]: the default [base_scale]. *)
Definition default_normalizer : Normalizer := {| base_shoulder_scale := 0.25 |}.

Definition _get_centroid (shoulder_points : list Point) : result Point :=
  p0 <- getitem shoulder_points 0 ;;
  p1 <- getitem shoulder_points 1 ;;
  p2 <- getitem shoulder_points 2 ;;
  Ok ((fst p0 + fst p1 + fst p2) / 3, (snd p0 + snd p1 + snd p2) / 3).

Definition _get_adjustment_distances (shoulder_points : list Point)
  : result (R * R) :=
  centroid <- _get_centroid shoulder_points ;;
  Ok (0.5 - fst centroid, 0.5 - snd centroid).

Definition _get_scale (self : Normalizer) (shoulder_points : list Point)
  : result R :=
  p0 <- getitem shoulder_points 0 ;;
  p1 <- getitem shoulder_points 1 ;;
  let shoulder_dist := hypot (fst p1 - fst p0) (snd p1 - snd p0) in
  truediv (base_shoulder_scale self) shoulder_dist.

Definition _adjust_positions (data : list Point) (adj_dist : R * R) : list Point :=
  fold_left
    (fun adj_data points =>
       adj_data ++ [(fst points + fst adj_dist, snd points + snd adj_dist)])
    data [].

Definition _normalize_scale (self : Normalizer) (data shoulder_points : list Point)
  : result (list R) :=
  scale <- _get_scale self shoulder_points ;;
  flat_data <- concatenate (map flatten_row data) ;;
  Ok (map (fun point => point * scale) flat_data).

Definition _separate_xy (data : list R) : result (list R) :=
  data <- reshape 42 (skipn 6 data) ;;
  let xy :=
    fold_left (fun acc points => (fst acc ++ [fst points], snd acc ++ [snd points]))
              data ([], []) in
  concatenate [fst xy; snd xy].

Definition _clean_data (data : list R) : result (list float64) :=
  separated_data <- _separate_xy data ;;
  lo <- Np.min separated_data ;;
  range <- ptp separated_data ;;
  Ok (map (fun v => true_divide (v - lo) range) separated_data).

Definition normalize_based_on_shoulders (self : Normalizer) (data : list R)
  : result (list float64) :=
  data <- reshape 45 data ;;
  let shoulder_points := firstn 3 data in
  adj_dist <- _get_adjustment_distances shoulder_points ;;
  let adj_data := _adjust_positions data adj_dist in
  scaled_data <- _normalize_scale self adj_data shoulder_points ;;
  _clean_data scaled_data.

(** ** Calculator *)

Definition line_pairs : list (nat * nat) :=
  [(4, 3); (3, 2); (2, 1); (1, 0); (8, 7);
   (7, 6); (6, 5); (5, 0); (12, 11); (11, 10);
   (10, 9); (16, 15); (15, 14); (14, 13); (20, 19);
   (19, 18); (18, 17); (17, 0); (5, 9); (9, 13); (13, 17)]%nat.

Definition calculate_hand_lines (hand : list Point) : result (list R) :=
  for_each
    (fun line_data pair =>
       p0 <- getitem hand (fst pair) ;;
       p1 <- getitem hand (snd pair) ;;
       let line := hypot (fst p1 - fst p0) (snd p1 - snd p0) in
       Ok (line_data ++ [line]))
    line_pairs [].

(** ** Text files and the word list *)

Module Text.

(** A character is a code point below 256; text is what a text-mode file
    holds once decoded. *)
Abbreviation char := Ascii.ascii.
Abbreviation text := (list Ascii.ascii).

Definition LF : char := Ascii.ascii_of_nat 10.
Definition CR : char := Ascii.ascii_of_nat 13.

Definition of_string (s : String.string) : text := String.list_ascii_of_string s.

(** [str.isspace] on one character. *)
Definition isspace (c : char) : bool :=
  existsb (Nat.eqb (Ascii.nat_of_ascii c))
          [9; 10; 11; 12; 13; 28; 29; 30; 31; 32; 133; 160]%nat.

(** [s.rstrip()]: trailing whitespace removed. *)
Fixpoint rstrip (s : text) : text :=
  match s with
  | [] => []
  | c :: t =>
      match rstrip t with
      | [] => if isspace c then [] else [c]
      | r => c :: r
      end
  end.

(** Reading in text mode with the default [newline=None]: the line ends
    [\r\n] and [\r] arrive as [\n]. *)
Fixpoint universal_newlines (s : text) : text :=
  match s with
  | [] => []
  | c :: t =>
      if Ascii.ascii_dec c CR then
        LF :: match t with
              | c' :: t' =>
                  if Ascii.ascii_dec c' LF then universal_newlines t'
                  else universal_newlines t
              | [] => []
              end
      else c :: universal_newlines t
  end.

(** Iterating over a file: the lines, each with its [\n] when it has one. *)
Fixpoint lines (s : text) : list text :=
  match s with
  | [] => []
  | c :: t =>
      if Ascii.ascii_dec c LF then [LF] :: lines t
      else match lines t with
           | [] => [[c]]
           | l :: ls => (c :: l) :: ls
           end
  end.

(** [os.linesep], by which [write] replaces every [\n] of its argument. *)
Inductive platform : Type := Posix | Windows.

Definition linesep (p : platform) : text :=
  match p with
  | Posix => [LF]
  | Windows => [CR; LF]
  end.

Definition written (p : platform) (s : text) : text :=
  flat_map (fun c => if Ascii.ascii_dec c LF then linesep p else [c]) s.

(** [w in l] on a list of strings. *)
Definition contains (l : list text) (w : text) : bool :=
  if in_dec (list_eq_dec Ascii.ascii_dec) w l then true else false.

Import String.

(** What [print] puts before the word. *)
Definition overriding : text :=
  list_ascii_of_string "Overriding data for "%string.

End Text.

Import Text.

(** [word_list.txt] inside [data_path], a directory that exists ([get_data_live]
    checks it before the call): its text, or [None] while there is no such
    file. *)
Definition content (file : option text) : text :=
  match file with
  | Some c => c
  | None => []
  end.

(** The list comprehension of [_update_wordlist] over the file. *)
Definition current_words (file : option text) : list text :=
  map rstrip (lines (universal_newlines (content file))).

(** [_update_wordlist]: the file afterwards, and the lines printed. *)
Definition _update_wordlist (p : platform) (file : option text) (word : text)
  : option text * list text :=
  let file :=
    match file with
    | None => Some []
    | Some c => Some c
    end in
  let current_words := current_words file in
  if negb (contains current_words word)
  then (Some (content file ++ written p (word ++ [LF])), [])
  else (file, [overriding ++ word]).

(** The word list after [_update_wordlist] has been called for each word in
    turn, as successive runs of [get_data_live] do. *)
Definition register_all (p : platform) (words : list text) (file : option text)
  : option text :=
  fold_left (fun file word => fst (_update_wordlist p file word)) words file.

(** The file is empty or its last line is ended. *)
Definition terminated (c : text) : Prop := last c LF = LF.

(** A word without trailing whitespace and without a line break inside. *)
Definition clean (word : text) : Prop :=
  rstrip word = word /\ ~ In LF word /\ ~ In CR word.

(** ** The Normalizer over binary64 *)

Module F64.

Import PrimFloat FloatOps SpecFloat.
Local Open Scope bool_scope.
Local Open Scope float_scope.

(** [a / b] on Python floats: a zero divisor of either sign raises, an
    overflowing quotient is an infinity and raises nothing. *)
Definition truediv (a b : float) : result float :=
  if b =? 0 then Raise ZeroDivisionError else Ok (a / b).

(** The mantissa of [x] brought to the exponent [e], and the exponent of [x]. *)
Definition scaled_mantissa (x : spec_float) (e : Z) : Z :=
  match x with
  | S754_finite _ m ex => (Z.pos m * 2 ^ (ex - e))%Z
  | _ => 0%Z
  end.

Definition exponent_of (x : spec_float) (other : Z) : Z :=
  match x with
  | S754_finite _ _ ex => ex
  | _ => other
  end.

(** A reference [math.hypot]: the square root of the exact [a*a + b*b],
    rounded once.  The C library's result can differ from it in the last
    digit, never when one argument is zero. *)
Definition hypot_rounded (a b : float) : float :=
  if is_infinity a || is_infinity b then infinity
  else if is_nan a || is_nan b then nan
  else
    let x := Prim2SF a in
    let y := Prim2SF b in
    let e := Z.min (exponent_of x (exponent_of y 0%Z))
                   (exponent_of y (exponent_of x 0%Z)) in
    let ma := scaled_mantissa x e in
    let mb := scaled_mantissa y e in
    match (ma * ma + mb * mb)%Z with
    | Z.pos s => SF2Prim (SFsqrt prec emax (S754_finite false s (2 * e)))
    | _ => 0
    end.

Definition flatten_row (p : float * float) : list float := [fst p; snd p].

Definition concatenate (arrays : list (list float)) : result (list float) :=
  match arrays with
  | [] => Raise ValueError
  | _ => Ok (concat arrays)
  end.

Fixpoint rows (l : list float) : list (float * float) :=
  match l with
  | x :: y :: t => (x, y) :: rows t
  | _ => []
  end.

Definition reshape (n : nat) (a : list float) : result (list (float * float)) :=
  if Nat.eqb (length a) (n * 2) then Ok (rows a) else Raise ValueError.

(** One step of [np.min] and of [np.max]: a NaN, once met, stays. *)
Definition minimum (a b : float) : float :=
  if (a <=? b) || is_nan a then a else b.

Definition maximum (a b : float) : float :=
  if (b <=? a) || is_nan a then a else b.

Definition min (a : list float) : result float :=
  match a with
  | [] => Raise ValueError
  | x :: t => Ok (fold_left minimum t x)
  end.

Definition max (a : list float) : result float :=
  match a with
  | [] => Raise ValueError
  | x :: t => Ok (fold_left maximum t x)
  end.

Definition ptp (a : list float) : result float :=
  hi <- max a ;;
  lo <- min a ;;
  Ok (hi - lo).

Record Normalizer : Type := { base_shoulder_scale : float }.

Definition default_normalizer : Normalizer := {| base_shoulder_scale := 0.25 |}.

Section Hypot.

(** [math.hypot] belongs to the C library; the Normalizer is embedded for any
    function in its place. *)
Variable hypot : float -> float -> float.

Definition _get_centroid (shoulder_points : list (float * float))
  : result (float * float) :=
  p0 <- getitem shoulder_points 0 ;;
  p1 <- getitem shoulder_points 1 ;;
  p2 <- getitem shoulder_points 2 ;;
  Ok ((fst p0 + fst p1 + fst p2) / 3, (snd p0 + snd p1 + snd p2) / 3).

Definition _get_adjustment_distances (shoulder_points : list (float * float))
  : result (float * float) :=
  centroid <- _get_centroid shoulder_points ;;
  Ok (0.5 - fst centroid, 0.5 - snd centroid).

Definition _get_scale (self : Normalizer) (shoulder_points : list (float * float))
  : result float :=
  p0 <- getitem shoulder_points 0 ;;
  p1 <- getitem shoulder_points 1 ;;
  let shoulder_dist := hypot (fst p1 - fst p0) (snd p1 - snd p0) in
  truediv (base_shoulder_scale self) shoulder_dist.

Definition _adjust_positions (data : list (float * float))
           (adj_dist : float * float) : list (float * float) :=
  fold_left
    (fun adj_data points =>
       adj_data ++ [(fst points + fst adj_dist, snd points + snd adj_dist)])
    data [].

Definition _normalize_scale (self : Normalizer)
           (data shoulder_points : list (float * float)) : result (list float) :=
  scale <- _get_scale self shoulder_points ;;
  flat_data <- concatenate (map flatten_row data) ;;
  Ok (map (fun point => point * scale) flat_data).

Definition _separate_xy (data : list float) : result (list float) :=
  data <- reshape 42 (skipn 6 data) ;;
  let xy :=
    fold_left (fun acc points => (fst acc ++ [fst points], snd acc ++ [snd points]))
              data ([], []) in
  concatenate [fst xy; snd xy].

Definition _clean_data (data : list float) : result (list float) :=
  separated_data <- _separate_xy data ;;
  lo <- min separated_data ;;
  range <- ptp separated_data ;;
  Ok (map (fun v => (v - lo) / range) separated_data).

Definition normalize_based_on_shoulders (self : Normalizer) (data : list float)
  : result (list float) :=
  data <- reshape 45 data ;;
  let shoulder_points := firstn 3 data in
  adj_dist <- _get_adjustment_distances shoulder_points ;;
  let adj_data := _adjust_positions data adj_dist in
  scaled_data <- _normalize_scale self adj_data shoulder_points ;;
  _clean_data scaled_data.

(** The first four statements of [normalize_based_on_shoulders], and the 84
    values on which [_clean_data] takes the minimum and the range. *)
Definition scaled_stage (self : Normalizer) (data : list float)
  : result (list float) :=
  data <- reshape 45 data ;;
  let shoulder_points := firstn 3 data in
  adj_dist <- _get_adjustment_distances shoulder_points ;;
  let adj_data := _adjust_positions data adj_dist in
  _normalize_scale self adj_data shoulder_points.

Definition pre_normalization (self : Normalizer) (data : list float)
  : result (list float) :=
  scaled_data <- scaled_stage self data ;;
  _separate_xy scaled_data.

(** The distance [_get_scale] divides by. *)
Definition shoulder_dist (data : list float) : float :=
  hypot (nth 2 data 0 - nth 0 data 0) (nth 3 data 0 - nth 1 data 0).

End Hypot.

(** The end-to-end scenario in binary64. *)
Definition end_to_end_frame : list float :=
  [0.4; 0.5; 0.5; 0.5; 0.6; 0.5] ++ repeat 0.5 84.



End F64.

(** ** Derived notions used to state the properties *)

(** The reference distance of a flat vector: between its points 0 and 1. *)
Definition shoulder_dist (data : list R) : R :=
  hypot (nth 2 data 0 - nth 0 data 0) (nth 3 data 0 - nth 1 data 0).

(** The translation that puts the centroid of points 0, 1, 2 at (0.5, 0.5). *)
Definition offset_x (data : list R) : R :=
  0.5 - (nth 0 data 0 + nth 2 data 0 + nth 4 data 0) / 3.

Definition offset_y (data : list R) : R :=
  0.5 - (nth 1 data 0 + nth 3 data 0 + nth 5 data 0) / 3.

Definition scale_factor (self : Normalizer) (data : list R) : R :=
  base_shoulder_scale self / shoulder_dist data.

(** The first four statements of [normalize_based_on_shoulders]: the 90
    translated and scaled coordinates handed to [_clean_data]. *)
Definition scaled_stage (self : Normalizer) (data : list R) : result (list R) :=
  data <- reshape 45 data ;;
  let shoulder_points := firstn 3 data in
  adj_dist <- _get_adjustment_distances shoulder_points ;;
  let adj_data := _adjust_positions data adj_dist in
  _normalize_scale self adj_data shoulder_points.

(** The 84 values on which [_clean_data] takes the minimum and the range. *)
Definition pre_normalization (self : Normalizer) (data : list R)
  : result (list R) :=
  scaled_data <- scaled_stage self data ;;
  _separate_xy scaled_data.

(** Apply a map of the plane to every point of a flat vector. *)
Definition map_points (f : Point -> Point) (data : list R) : list R :=
  flatten (map f (rows data)).

Definition shift (dx dy : R) (p : Point) : Point := (fst p + dx, snd p + dy).

(** Uniform scaling by [s] about the origin [(ox, oy)]. *)
Definition scale_about (ox oy s : R) (p : Point) : Point :=
  (ox + s * (fst p - ox), oy + s * (snd p - oy)).

Definition all_equal (l : list R) : Prop :=
  forall a b, In a l -> In b l -> a = b.

(** The hand values before min-max scaling, as the code arranges them: the
    x of every hand point, then the y of every hand point. *)
Definition hand_values (k ax ay : R) (hands : list Point) : list R :=
  map (fun p => (fst p + ax) * k) hands ++ map (fun p => (snd p + ay) * k) hands.

(** The last statement of [_clean_data] on a non-empty array. *)
Definition min_max (a : list R) : list float64 :=
  match a with
  | [] => []
  | x :: t =>
      let lo := fold_left Rmin t x in
      let hi := fold_left Rmax t x in
      map (fun v => true_divide (v - lo) (hi - lo)) a
  end.

(** A frame with the reference points on a line and one raised hand point. *)
Definition sample_frame : list R :=
  [0; 0; 1; 0; 2; 0; 1; 1] ++ repeat 0 82.

(** The end-to-end scenario: level shoulders, every hand point at the centre. *)
Definition end_to_end_keys : list (list Point) :=
  [[(0.4, 0.5); (0.5, 0.5); (0.6, 0.5)];
   repeat (0.5, 0.5) 21;
   repeat (0.5, 0.5) 21].

Definition end_to_end_frame : list R :=
  [0.4; 0.5; 0.5; 0.5; 0.6; 0.5] ++ repeat 0.5 84.

(** A hand with the wrist at the origin and point 17 at (3, 4). *)
Definition sample_hand : list Point :=
  (0, 0) :: repeat (1, 1) 16 ++ (3, 4) :: repeat (1, 1) 3.

(** Euclidean distance of two points. *)
Definition distance (p q : Point) : R :=
  sqrt ((fst q - fst p) * (fst q - fst p) + (snd q - snd p) * (snd q - snd p)).

(** The length of the skeleton edge [pair] of a hand. *)
Definition line_length (hand : list Point) (pair : nat * nat) : R :=
  distance (nth (fst pair) hand (0, 0)) (nth (snd pair) hand (0, 0)).

(** The data path of one iteration of [get_data_live]: the key points of the
    frame are selected, flattened and normalized; nothing catches what the
    three calls raise. *)
Definition frame_features (normalizer : Normalizer) (results : Results)
  : result (list float64) :=
  keys <- _get_keypoints results ;;
  keys <- _flatten keys ;;
  normalize_based_on_shoulders normalizer keys.

(** A landmark group as [_get_keypoints] takes it: the reported list, or
    [np.zeros((n, 2))] when the detector reports nothing. *)
Definition reported_or_zeros (group : option (list Point)) (n : nat)
  : list Point :=
  match group with
  | Some l => l
  | None => zeros n
  end.

(** A detection with the right shoulder away from the head and no hands. *)
Definition pose_only_results : Results :=
  {| pose_landmarks := Some (repeat (0, 0) 12 ++ (1, 0) :: repeat (0, 0) 20);
     left_hand_landmarks := None;
     right_hand_landmarks := None |}.

(** The word "hi " with its trailing blank, and the word "hi". *)
Definition word_hi_blank : text :=
  [Ascii.ascii_of_nat 104; Ascii.ascii_of_nat 105; Ascii.ascii_of_nat 32].

Definition word_hi : text := [Ascii.ascii_of_nat 104; Ascii.ascii_of_nat 105].

Definition word_yes : text :=
  [Ascii.ascii_of_nat 121; Ascii.ascii_of_nat 101; Ascii.ascii_of_nat 115].

(** ** Loops and reshaping *)

Section Loops.

Context {A B : Type}.

Lemma append_loop_map (f : A -> B) (l : list A) (acc : list B) :
  fold_left (fun acc x => acc ++ [f x]) l acc = acc ++ map f l.
Proof.
  revert acc; induction l as [|x l IH]; intros acc; simpl.
  - now rewrite app_nil_r.
  - rewrite IH, <- app_assoc. reflexivity.
Qed.

(** A loop whose body appends one value per element and does not raise. *)
Lemma for_each_append (body : list B -> A -> result (list B)) (f : A -> B)
      (l : list A) (acc : list B) :
  (forall acc x, In x l -> body acc x = Ok (acc ++ [f x])) ->
  for_each body l acc = Ok (acc ++ map f l).
Proof.
  revert acc; induction l as [|x l IH]; intros acc Hb; simpl.
  - now rewrite app_nil_r.
  - rewrite (Hb acc x (or_introl eq_refl)). simpl.
    rewrite IH by (intros acc' y Hy; apply Hb; now right).
    rewrite <- app_assoc. reflexivity.
Qed.

End Loops.

Lemma adjust_positions_map (data : list Point) (adj : R * R) :
  _adjust_positions data adj = map (shift (fst adj) (snd adj)) data.
Proof.
  unfold _adjust_positions.
  now rewrite (append_loop_map (shift (fst adj) (snd adj))).
Qed.

Lemma separate_loop (data : list Point) (x y : list R) :
  fold_left (fun acc points => (fst acc ++ [fst points], snd acc ++ [snd points]))
            data (x, y)
  = (x ++ map fst data, y ++ map snd data).
Proof.
  revert x y; induction data as [|p data IH]; intros x y; simpl.
  - now rewrite !app_nil_r.
  - rewrite IH, <- !app_assoc. reflexivity.
Qed.

Lemma concat_flatten_row (l : list Point) :
  concat (map flatten_row l) = flatten l.
Proof. unfold flatten. now rewrite flat_map_concat_map. Qed.

Lemma flatten_length (l : list Point) : length (flatten l) = (2 * length l)%nat.
Proof. induction l as [|p l IH]; simpl; [reflexivity | rewrite IH; lia]. Qed.

Lemma rows_flatten (l : list Point) : rows (flatten l) = l.
Proof.
  induction l as [|[x y] l IH]; simpl; [reflexivity | now rewrite IH].
Qed.

Lemma flatten_map_scale (k : R) (l : list Point) :
  map (fun v => v * k) (flatten l)
  = flatten (map (fun p => (fst p * k, snd p * k)) l).
Proof. induction l as [|p l IH]; simpl; [reflexivity | now rewrite <- IH]. Qed.

(** A list of even length is the flattening of its rows. *)
Lemma flatten_rows (n : nat) : forall l : list R,
  length l = (2 * n)%nat -> flatten (rows l) = l /\ length (rows l) = n.
Proof.
  induction n as [|n IH]; intros l Hl.
  - destruct l; [now split | discriminate].
  - destruct l as [|x [|y t]]; try (simpl in Hl; lia).
    simpl in Hl. destruct (IH t ltac:(lia)) as [Hf Hn].
    simpl. now rewrite Hf, Hn.
Qed.

Lemma reshape_ok (n : nat) (a : list R) :
  length a = (2 * n)%nat -> reshape n a = Ok (rows a).
Proof.
  intros H. unfold reshape.
  replace (n * 2)%nat with (2 * n)%nat by lia.
  rewrite H, Nat.eqb_refl. reflexivity.
Qed.

Lemma reshape_bad (n : nat) (a : list R) :
  length a <> (2 * n)%nat -> reshape n a = Raise ValueError.
Proof.
  intros H. unfold reshape.
  replace (n * 2)%nat with (2 * n)%nat by lia.
  apply Nat.eqb_neq in H. now rewrite H.
Qed.

Lemma rows_nth (l : list R) : forall i : nat,
  (2 * i + 1 < length l)%nat ->
  nth i (rows l) (0, 0) = (nth (2 * i) l 0, nth (2 * i + 1) l 0).
Proof.
  remember (length l) as m eqn:Hm. revert l Hm.
  induction m as [m IH] using lt_wf_ind. intros l Hm i Hi.
  destruct l as [|x [|y t]]; try (simpl in Hm; lia).
  destruct i as [|i]; [reflexivity|].
  simpl in Hm. simpl rows. cbn [nth].
  rewrite (IH (length t)) with (l := t) (i := i); try lia.
  replace (2 * S i)%nat with (S (S (2 * i))) by lia.
  replace (S (S (2 * i)) + 1)%nat with (S (S (2 * i + 1))) by lia.
  reflexivity.
Qed.

(** A 90-scalar vector: three reference points, then 84 hand scalars. *)
Lemma flat_vector_inv (data : list R) :
  length data = 90%nat ->
  exists x0 y0 x1 y1 x2 y2 hands,
    data = x0 :: y0 :: x1 :: y1 :: x2 :: y2 :: hands /\ length hands = 84%nat.
Proof.
  intros H.
  destruct data as [|x0 [|y0 [|x1 [|y1 [|x2 [|y2 hands]]]]]]; try discriminate.
  exists x0, y0, x1, y1, x2, y2, hands. split; [reflexivity|].
  simpl in H. lia.
Qed.

(** ** Minimum, maximum and min-max scaling *)

Section MinMax.

Lemma fold_Rmin_le (t : list R) : forall x,
  fold_left Rmin t x <= x /\ forall v, In v t -> fold_left Rmin t x <= v.
Proof.
  induction t as [|y t IH]; intros x; simpl.
  - split; [lra | tauto].
  - destruct (IH (Rmin x y)) as [H1 H2].
    pose proof (Rmin_l x y). pose proof (Rmin_r x y).
    split; [lra|]. intros v [<-|Hv]; [lra | now apply H2].
Qed.

Lemma fold_Rmax_ge (t : list R) : forall x,
  x <= fold_left Rmax t x /\ forall v, In v t -> v <= fold_left Rmax t x.
Proof.
  induction t as [|y t IH]; intros x; simpl.
  - split; [lra | tauto].
  - destruct (IH (Rmax x y)) as [H1 H2].
    pose proof (Rmax_l x y). pose proof (Rmax_r x y).
    split; [lra|]. intros v [<-|Hv]; [lra | now apply H2].
Qed.

Lemma fold_Rmin_In (t : list R) : forall x, In (fold_left Rmin t x) (x :: t).
Proof.
  induction t as [|y t IH]; intros x; simpl.
  - now left.
  - destruct (IH (Rmin x y)) as [H|H]; [|now right; right].
    rewrite <- H. unfold Rmin. destruct (Rle_dec x y); [now left | now right; left].
Qed.

Lemma fold_Rmax_In (t : list R) : forall x, In (fold_left Rmax t x) (x :: t).
Proof.
  induction t as [|y t IH]; intros x; simpl.
  - now left.
  - destruct (IH (Rmax x y)) as [H|H]; [|now right; right].
    rewrite <- H. unfold Rmax. destruct (Rle_dec x y); [now right; left | now left].
Qed.

Lemma fold_Rmin_shift (c : R) (t : list R) : forall x,
  fold_left Rmin (map (fun v => v + c) t) (x + c) = fold_left Rmin t x + c.
Proof.
  induction t as [|y t IH]; intros x; simpl; [reflexivity|].
  rewrite <- IH. f_equal. unfold Rmin.
  destruct (Rle_dec (x + c) (y + c)), (Rle_dec x y); lra.
Qed.

Lemma fold_Rmax_shift (c : R) (t : list R) : forall x,
  fold_left Rmax (map (fun v => v + c) t) (x + c) = fold_left Rmax t x + c.
Proof.
  induction t as [|y t IH]; intros x; simpl; [reflexivity|].
  rewrite <- IH. f_equal. unfold Rmax.
  destruct (Rle_dec (x + c) (y + c)), (Rle_dec x y); lra.
Qed.

Lemma min_max_length (a : list R) : length (min_max a) = length a.
Proof. destruct a; [reflexivity|]. unfold min_max. now rewrite length_map. Qed.

(** The closing statements of [_clean_data] never raise on a non-empty array. *)
Lemma clean_tail (a : list R) :
  a <> [] ->
  (lo <- Np.min a ;; range <- ptp a ;;
   Ok (map (fun v => true_divide (v - lo) range) a)) = Ok (min_max a).
Proof. destruct a as [|x t]; [congruence | reflexivity]. Qed.

(** A shift common to all values cancels. *)
Lemma min_max_shift (c : R) (a : list R) :
  min_max (map (fun v => v + c) a) = min_max a.
Proof.
  destruct a as [|x t]; [reflexivity|].
  change (map (fun v => v + c) (x :: t)) with (x + c :: map (fun v => v + c) t).
  unfold min_max. rewrite fold_Rmin_shift, fold_Rmax_shift.
  change (x + c :: map (fun v => v + c) t) with (map (fun v => v + c) (x :: t)).
  rewrite map_map. apply map_ext. intros v. f_equal; lra.
Qed.

Lemma true_divide_fin (x d : R) : d <> 0 -> true_divide x d = Fin (x / d).
Proof. intros H. unfold true_divide. now destruct (Req_dec_T d 0). Qed.

Lemma true_divide_nan : true_divide 0 0 = NaN.
Proof.
  unfold true_divide.
  destruct (Req_dec_T 0 0) as [_|H]; [|now elim H].
  destruct (Req_dec_T 0 0) as [_|H]; [reflexivity | now elim H].
Qed.

(** With two different values the range is positive: every result is in the
    unit interval and both ends are reached. *)
Lemma min_max_range (a : list R) :
  ~ all_equal a ->
  exists out,
    min_max a = map Fin out /\
    Forall (fun v => 0 <= v <= 1) out /\ In 0 out /\ In 1 out.
Proof.
  intros Hne. destruct a as [|x t].
  - elim Hne. intros u v [].
  - set (lo := fold_left Rmin t x). set (hi := fold_left Rmax t x).
    assert (Hlo : forall v, In v (x :: t) -> lo <= v).
    { destruct (fold_Rmin_le t x) as [H1 H2]. intros v [<-|Hv]; auto. }
    assert (Hhi : forall v, In v (x :: t) -> v <= hi).
    { destruct (fold_Rmax_ge t x) as [H1 H2]. intros v [<-|Hv]; auto. }
    assert (Hr : 0 < hi - lo).
    { destruct (Rlt_dec lo hi) as [Hlt|Hge]; [lra|]. elim Hne.
      intros u v Hu Hv.
      pose proof (Hlo u Hu). pose proof (Hhi u Hu).
      pose proof (Hlo v Hv). pose proof (Hhi v Hv). lra. }
    exists (map (fun v => (v - lo) / (hi - lo)) (x :: t)).
    split; [|split; [|split]].
    + unfold min_max. fold lo hi. rewrite map_map. apply map_ext.
      intros v. apply true_divide_fin. lra.
    + apply Forall_forall. intros w Hw. apply in_map_iff in Hw.
      destruct Hw as [v [<- Hv]].
      pose proof (Hlo v Hv). pose proof (Hhi v Hv). split.
      * apply Rmult_le_pos; [lra|]. left. apply Rinv_0_lt_compat. lra.
      * apply Rmult_le_reg_r with (hi - lo); [lra|]. unfold Rdiv.
        rewrite Rmult_assoc, Rinv_l by lra. lra.
    + apply in_map_iff. exists lo. split; [|apply fold_Rmin_In].
      unfold Rdiv. rewrite Rminus_diag. lra.
    + apply in_map_iff. exists hi. split; [|apply fold_Rmax_In].
      unfold Rdiv. rewrite Rinv_r; lra.
Qed.

(** With all values equal every division is 0/0. *)
Lemma min_max_degenerate (a : list R) :
  all_equal a -> min_max a = repeat NaN (length a).
Proof.
  intros Heq. destruct a as [|x t]; [reflexivity|].
  unfold min_max.
  set (lo := fold_left Rmin t x). set (hi := fold_left Rmax t x).
  assert (Hlo : forall v, In v (x :: t) -> v = lo).
  { intros v Hv. apply Heq; [exact Hv | apply fold_Rmin_In]. }
  assert (Hhi : hi = lo) by (apply Hlo, fold_Rmax_In).
  rewrite Hhi, Rminus_diag.
  generalize (x :: t) Hlo. intros l Hl.
  induction l as [|v l IH]; [reflexivity|]. cbn [map length repeat].
  rewrite (Hl v (or_introl eq_refl)), Rminus_diag, true_divide_nan.
  f_equal. apply IH. intros w Hw. apply Hl. now right.
Qed.

End MinMax.

(** ** The stages of the Normalizer on a 90-scalar vector *)

Section Stages.

Variable self : Normalizer.

Lemma truediv_ok (a d : R) : d <> 0 -> truediv a d = Ok (a / d).
Proof. intros H. unfold truediv. now destruct (Req_dec_T d 0). Qed.

Lemma truediv_zero (a d : R) : d = 0 -> truediv a d = Raise ZeroDivisionError.
Proof. intros H. unfold truediv. now destruct (Req_dec_T d 0). Qed.

Lemma normalize_stages (data : list R) :
  normalize_based_on_shoulders self data
  = (scaled_data <- scaled_stage self data ;; _clean_data scaled_data).
Proof.
  unfold normalize_based_on_shoulders, scaled_stage.
  destruct (reshape 45 data) as [pts|e]; [|reflexivity]. cbn [bind].
  destruct (_get_adjustment_distances (firstn 3 pts)); reflexivity.
Qed.

Lemma clean_data_stages (scaled : list R) :
  _clean_data scaled
  = (sep <- _separate_xy scaled ;;
     lo <- Np.min sep ;; range <- ptp sep ;;
     Ok (map (fun v => true_divide (v - lo) range) sep)).
Proof. reflexivity. Qed.

Lemma hand_values_length (k ax ay : R) (hands : list Point) :
  length (hand_values k ax ay hands) = (2 * length hands)%nat.
Proof. unfold hand_values. rewrite length_app, !length_map. lia. Qed.

Lemma scaled_stage_spec (data : list R) :
  length data = 90%nat ->
  scaled_stage self data
  = (k <- truediv (base_shoulder_scale self) (shoulder_dist data) ;;
     Ok (map (fun v => v * k)
             (map_points (shift (offset_x data) (offset_y data)) data))).
Proof.
  intros Hlen.
  destruct (flat_vector_inv data Hlen)
    as (x0 & y0 & x1 & y1 & x2 & y2 & hands & -> & Hh).
  unfold scaled_stage. rewrite (reshape_ok 45) by exact Hlen.
  cbn [rows firstn bind _get_adjustment_distances _get_centroid getitem
       nth_error fst snd].
  unfold _normalize_scale, _get_scale.
  cbn [getitem nth_error bind fst snd].
  unfold shoulder_dist, offset_x, offset_y. cbn [nth].
  destruct (truediv (base_shoulder_scale self) (hypot (x1 - x0) (y1 - y0)))
    as [k|e]; [|reflexivity].
  cbn [bind]. rewrite adjust_positions_map. cbn [fst snd].
  unfold map_points. cbn [rows map concatenate].
  now rewrite <- concat_flatten_row.
Qed.

Lemma scaled_stage_shape (data : list R) :
  length data <> 90%nat -> scaled_stage self data = Raise ValueError.
Proof.
  intros H. unfold scaled_stage. now rewrite (reshape_bad 45) by exact H.
Qed.

(** What [_separate_xy] makes of the scaled coordinates. *)
Lemma separate_scaled (k ax ay : R) (data : list R) :
  length data = 90%nat ->
  _separate_xy (map (fun v => v * k) (map_points (shift ax ay) data))
  = Ok (hand_values k ax ay (rows (skipn 6 data))).
Proof.
  intros Hlen.
  destruct (flat_vector_inv data Hlen)
    as (x0 & y0 & x1 & y1 & x2 & y2 & hands & -> & Hh).
  destruct (flatten_rows 42 hands Hh) as [_ Hrows].
  unfold _separate_xy, map_points. cbn [rows map flatten flat_map app skipn].
  fold (flatten (map (shift ax ay) (rows hands))).
  rewrite flatten_map_scale.
  rewrite (reshape_ok 42)
    by (rewrite flatten_length, !length_map, Hrows; reflexivity).
  cbn [bind]. rewrite rows_flatten, separate_loop. cbn [fst snd app concatenate concat].
  rewrite app_nil_r, !map_map. reflexivity.
Qed.

Lemma pre_normalization_spec (data : list R) :
  length data = 90%nat ->
  pre_normalization self data
  = (k <- truediv (base_shoulder_scale self) (shoulder_dist data) ;;
     Ok (hand_values k (offset_x data) (offset_y data) (rows (skipn 6 data)))).
Proof.
  intros Hlen. unfold pre_normalization.
  rewrite scaled_stage_spec by exact Hlen.
  destruct (truediv (base_shoulder_scale self) (shoulder_dist data)) as [k|e];
    [|reflexivity].
  cbn [bind]. now apply separate_scaled.
Qed.

Lemma hands_length (data : list R) :
  length data = 90%nat -> length (rows (skipn 6 data)) = 42%nat.
Proof.
  intros Hlen. apply (flatten_rows 42). rewrite length_skipn, Hlen. reflexivity.
Qed.

Lemma normalize_spec (data : list R) :
  length data = 90%nat ->
  normalize_based_on_shoulders self data
  = (k <- truediv (base_shoulder_scale self) (shoulder_dist data) ;;
     Ok (min_max
           (hand_values k (offset_x data) (offset_y data) (rows (skipn 6 data))))).
Proof.
  intros Hlen. rewrite normalize_stages, scaled_stage_spec by exact Hlen.
  destruct (truediv (base_shoulder_scale self) (shoulder_dist data)) as [k|e];
    [|reflexivity].
  cbn [bind]. rewrite clean_data_stages, separate_scaled by exact Hlen.
  cbn [bind]. apply clean_tail.
  intros H. apply (f_equal (@length R)) in H.
  rewrite hand_values_length, hands_length in H by exact Hlen. discriminate.
Qed.

Lemma normalize_shape (data : list R) :
  length data <> 90%nat ->
  normalize_based_on_shoulders self data = Raise ValueError.
Proof.
  intros H. rewrite normalize_stages, scaled_stage_shape by exact H. reflexivity.
Qed.

End Stages.

(** ** Distances *)

Lemma hypot_distance (p q : Point) :
  hypot (fst q - fst p) (snd q - snd p) = distance p q.
Proof. reflexivity. Qed.

Lemma hypot_zero_iff (a b : R) : hypot a b = 0 <-> a = 0 /\ b = 0.
Proof.
  unfold hypot. split.
  - intros H. apply sqrt_eq_0 in H; nra.
  - intros [-> ->]. rewrite Rmult_0_l, Rplus_0_l. apply sqrt_0.
Qed.

Lemma hypot_scale (s a b : R) : 0 <= s -> hypot (s * a) (s * b) = s * hypot a b.
Proof.
  intros Hs. unfold hypot.
  replace (s * a * (s * a) + s * b * (s * b)) with (s * s * (a * a + b * b)) by ring.
  rewrite sqrt_mult by nra. now rewrite sqrt_square.
Qed.

Lemma hypot_3_4 : hypot (-3) (-4) = 5.
Proof.
  unfold hypot. replace (-3 * -3 + -4 * -4) with (5 * 5) by lra.
  apply sqrt_square. lra.
Qed.

(** ** Calculator *)

Section HandLines.

Lemma getitem_nth {A : Type} (l : list A) (i : nat) (d : A) :
  (i < length l)%nat -> getitem l i = Ok (nth i l d).
Proof. intros H. unfold getitem. now rewrite (nth_error_nth' l d H). Qed.

Lemma line_pairs_in_range :
  Forall (fun pair => (fst pair < 21)%nat /\ (snd pair < 21)%nat) line_pairs.
Proof. unfold line_pairs. repeat constructor; simpl; lia. Qed.

Lemma nth_map_default {A : Type} (f : A -> R) (l : list A) (d : A) (i : nat) :
  (i < length l)%nat -> nth i (map f l) 0 = f (nth i l d).
Proof.
  intros H. rewrite (nth_indep _ 0 (f d)) by now rewrite length_map.
  apply map_nth.
Qed.

Lemma map_constant {A : Type} (f : A -> R) (c : R) (l : list A) :
  (forall x, In x l -> f x = c) -> map f l = repeat c (length l).
Proof.
  induction l as [|x l IH]; intros H; simpl; [reflexivity|].
  rewrite (H x (or_introl eq_refl)), IH; [reflexivity|].
  intros y Hy. apply H. now right.
Qed.

Lemma distance_refl (p : Point) : distance p p = 0.
Proof.
  unfold distance. rewrite !Rminus_diag, Rmult_0_l, Rplus_0_l. apply sqrt_0.
Qed.


Variable hand : list Point.
Hypothesis hand_points : length hand = 21%nat.

Lemma calculate_hand_lines_spec :
  calculate_hand_lines hand = Ok (map (line_length hand) line_pairs).
Proof.
  unfold calculate_hand_lines.
  rewrite (for_each_append _ (line_length hand)); [reflexivity|].
  intros acc pair Hin.
  pose proof (proj1 (Forall_forall _ _) line_pairs_in_range pair Hin) as [H0 H1].
  rewrite (getitem_nth hand (fst pair) (0, 0)) by (rewrite hand_points; exact H0).
  rewrite (getitem_nth hand (snd pair) (0, 0)) by (rewrite hand_points; exact H1).
  reflexivity.
Qed.

End HandLines.

(** C9. For a hand of 21 points [calculate_hand_lines] returns 21 values; the
    i-th is the Euclidean distance between the two points named by the i-th
    entry of [line_pairs].  When all points of the hand are the same every
    value is 0, and with point 0 at (0,0) and point 17 at (3,4) the value for
    the pair (17,0), entry 17 of the list, is 5. *)
Theorem hand_lines_pair_distances (hand : list Point) :
  length hand = 21%nat ->
  exists out,
    calculate_hand_lines hand = Ok out /\
    length out = 21%nat /\
    (forall i, (i < 21)%nat ->
       nth i out 0
       = distance (nth (fst (nth i line_pairs (0, 0)%nat)) hand (0, 0))
                  (nth (snd (nth i line_pairs (0, 0)%nat)) hand (0, 0))) /\
    ((forall p q, In p hand -> In q hand -> p = q) -> out = repeat 0 21) /\
    (nth 0 hand (0, 0) = (0, 0) -> nth 17 hand (0, 0) = (3, 4) ->
       nth 17 line_pairs (0, 0)%nat = (17, 0)%nat /\ nth 17 out 0 = 5).
Proof.
  intros hand_points.
  exists (map (line_length hand) line_pairs).
  split; [now apply calculate_hand_lines_spec|].
  split; [reflexivity|].
  split; [|split].
  - intros i Hi. now rewrite (nth_map_default _ _ (0, 0)%nat).
  - intros Hsame. apply (map_constant (line_length hand) 0 line_pairs).
    intros pair Hin.
    pose proof (proj1 (Forall_forall _ _) line_pairs_in_range pair Hin) as [H0 H1].
    unfold line_length.
    rewrite (Hsame (nth (fst pair) hand (0, 0)) (nth (snd pair) hand (0, 0)))
      by (apply nth_In; rewrite hand_points; assumption).
    apply distance_refl.
  - intros Hw Hp. split; [reflexivity|].
    rewrite (nth_map_default _ _ (0, 0)%nat) by (simpl; lia).
    cbn [nth line_pairs]. unfold line_length. cbn [fst snd].
    rewrite Hw, Hp, <- hypot_distance. cbn [fst snd].
    replace (0 - 3) with (-3) by lra. replace (0 - 4) with (-4) by lra.
    apply hypot_3_4.
Qed.

Lemma hand_lines_pair_distances_witness :
  length sample_hand = 21%nat /\
  exists out, calculate_hand_lines sample_hand = Ok out /\ nth 17 out 0 = 5.
Proof.
  split; [reflexivity|].
  destruct (hand_lines_pair_distances sample_hand eq_refl)
    as (out & Hout & _ & _ & _ & Hedge).
  exists out. split; [exact Hout|].
  apply Hedge; reflexivity.
Defined.



(** ** Selector and Flattener *)

Section KeypointSets.

Variables shoulders lhand rhand : list Point.
Hypothesis shoulders_points : length shoulders = 3%nat.
Hypothesis lhand_points : length lhand = 21%nat.
Hypothesis rhand_points : length rhand = 21%nat.

Lemma flatten_keys :
  _flatten [shoulders; lhand; rhand]
  = Ok (flatten shoulders ++ flatten lhand ++ flatten rhand).
Proof. unfold _flatten. cbn [map concatenate concat]. now rewrite app_nil_r. Qed.

Lemma flatten_keys_length :
  length (flatten shoulders ++ flatten lhand ++ flatten rhand) = 90%nat.
Proof.
  rewrite !length_app, !flatten_length.
  rewrite shoulders_points, lhand_points, rhand_points. reflexivity.
Qed.

End KeypointSets.

(** Whatever the detector reports, the selector returns groups of 3, 21 and
    21 points, provided a reported pose has its 33 landmarks and a reported
    hand its 21. *)
Lemma get_keypoints_valid (results : Results) :
  (forall l, pose_landmarks results = Some l -> length l = 33%nat) ->
  (forall l, left_hand_landmarks results = Some l -> length l = 21%nat) ->
  (forall l, right_hand_landmarks results = Some l -> length l = 21%nat) ->
  exists shoulders lhand rhand,
    _get_keypoints results = Ok [shoulders; lhand; rhand] /\
    length shoulders = 3%nat /\ length lhand = 21%nat /\ length rhand = 21%nat /\
    (pose_landmarks results = None -> shoulders = zeros 3).
Proof.
  intros Hpose Hl Hr. unfold _get_keypoints.
  set (pose := match pose_landmarks results with Some l => l | None => zeros 33 end).
  assert (Hlen : length pose = 33%nat).
  { unfold pose. destruct (pose_landmarks results) as [l|]; [now apply Hpose|].
    reflexivity. }
  rewrite (for_each_append _ (fun p => nth p pose (0, 0))).
  2:{ intros acc p Hp. rewrite (getitem_nth pose p (0, 0)); [reflexivity|].
      rewrite Hlen. unfold shoulder_points_idx in Hp. simpl in Hp.
      destruct Hp as [<-|[<-|[<-|[]]]]; lia. }
  cbn [bind app]. do 3 eexists. split; [reflexivity|].
  split; [reflexivity|]. split; [|split].
  - destruct (left_hand_landmarks results) as [l|]; [now apply Hl | reflexivity].
  - destruct (right_hand_landmarks results) as [l|]; [now apply Hr | reflexivity].
  - intros Hnone. unfold pose. rewrite Hnone. reflexivity.
Qed.

(** ** Normalizer: sizes and failures *)

Lemma normalize_length (self : Normalizer) (data : list R) (out : list float64) :
  normalize_based_on_shoulders self data = Ok out -> length out = 84%nat.
Proof.
  intros H. destruct (Nat.eq_dec (length data) 90) as [Hlen|Hlen].
  - rewrite normalize_spec in H by exact Hlen.
    destruct (truediv (base_shoulder_scale self) (shoulder_dist data)) as [k|e];
      [|discriminate].
    cbn [bind] in H. replace out with
      (min_max (hand_values k (offset_x data) (offset_y data) (rows (skipn 6 data))))
      by congruence.
    rewrite min_max_length, hand_values_length, hands_length by exact Hlen.
    reflexivity.
  - rewrite normalize_shape in H by exact Hlen. discriminate.
Qed.

Lemma normalize_zero_division (self : Normalizer) (data : list R) :
  normalize_based_on_shoulders self data = Raise ZeroDivisionError <->
  length data = 90%nat /\ shoulder_dist data = 0.
Proof.
  split.
  - intros H. destruct (Nat.eq_dec (length data) 90) as [Hlen|Hlen].
    + split; [exact Hlen|]. rewrite normalize_spec in H by exact Hlen.
      destruct (Req_dec_T (shoulder_dist data) 0) as [Hd|Hd]; [exact Hd|].
      rewrite truediv_ok in H by exact Hd. discriminate.
    + rewrite normalize_shape in H by exact Hlen. discriminate.
  - intros [Hlen Hd]. rewrite normalize_spec by exact Hlen.
    now rewrite truediv_zero.
Qed.

(** C4. For a key-point set with groups of 3, 21 and 21 points, detected or
    zero-filled, [_flatten] returns 90 scalars; whenever
    [normalize_based_on_shoulders] returns on them, it returns 84 values, and
    it does return when the reference distance is not zero. *)
Theorem flat_vector_90_feature_84 (shoulders lhand rhand : list Point) :
  length shoulders = 3%nat -> length lhand = 21%nat -> length rhand = 21%nat ->
  exists data,
    _flatten [shoulders; lhand; rhand] = Ok data /\
    length data = 90%nat /\
    forall self : Normalizer,
      (forall out, normalize_based_on_shoulders self data = Ok out ->
                   length out = 84%nat) /\
      (shoulder_dist data <> 0 ->
       exists out, normalize_based_on_shoulders self data = Ok out /\
                   length out = 84%nat).
Proof.
  intros Hs Hl Hr.
  exists (flatten shoulders ++ flatten lhand ++ flatten rhand).
  split; [apply flatten_keys|].
  pose proof (flatten_keys_length _ _ _ Hs Hl Hr) as Hlen.
  split; [exact Hlen|].
  intros self. split.
  - intros out. apply normalize_length.
  - intros Hd. rewrite normalize_spec, truediv_ok by assumption. cbn [bind].
    eexists. split; [reflexivity|].
    rewrite min_max_length, hand_values_length, hands_length by exact Hlen.
    reflexivity.
Qed.

Lemma flat_vector_90_feature_84_witness :
  exists data,
    _flatten [zeros 3; zeros 21; zeros 21] = Ok data /\ length data = 90%nat.
Proof.
  destruct (flat_vector_90_feature_84 (zeros 3) (zeros 21) (zeros 21)
              eq_refl eq_refl eq_refl) as (data & Hflat & Hlen & _).
  exists data. split; assumption.
Defined.

(** C1. For a key-point set whose shoulder group is zero-filled the reference
    distance is zero and [normalize_based_on_shoulders] produces no vector: it
    fails with [ZeroDivisionError], raised by the division in [_get_scale].  The
    failure is distinct: the Normalizer raises it on no other input. *)
Theorem zero_shoulders_reported (self : Normalizer) (lhand rhand : list Point) :
  length lhand = 21%nat -> length rhand = 21%nat ->
  exists data,
    _flatten [zeros 3; lhand; rhand] = Ok data /\
    shoulder_dist data = 0 /\
    normalize_based_on_shoulders self data = Raise ZeroDivisionError /\
    forall other,
      normalize_based_on_shoulders self other = Raise ZeroDivisionError ->
      length other = 90%nat /\ shoulder_dist other = 0.
Proof.
  intros Hl Hr.
  exists (flatten (zeros 3) ++ flatten lhand ++ flatten rhand).
  split; [apply flatten_keys|].
  assert (Hd : shoulder_dist (flatten (zeros 3) ++ flatten lhand ++ flatten rhand) = 0).
  { unfold shoulder_dist. cbn [zeros repeat flatten flat_map app nth fst snd].
    apply hypot_zero_iff. lra. }
  split; [exact Hd|]. split.
  - apply normalize_zero_division. split; [|exact Hd].
    now apply flatten_keys_length.
  - intros other. apply normalize_zero_division.
Qed.

Lemma zero_shoulders_reported_witness :
  exists data,
    _flatten [zeros 3; zeros 21; zeros 21] = Ok data /\
    normalize_based_on_shoulders default_normalizer data = Raise ZeroDivisionError.
Proof.
  destruct (zero_shoulders_reported default_normalizer (zeros 21) (zeros 21)
              eq_refl eq_refl) as (data & Hflat & _ & Hraise & _).
  exists data. split; assumption.
Defined.

(** ** Normalizer: dropping the reference points, separating x and y *)

Lemma separate_xy_spec (data : list R) :
  length data = 90%nat ->
  _separate_xy data
  = Ok (map fst (rows (skipn 6 data)) ++ map snd (rows (skipn 6 data))).
Proof.
  intros Hlen. unfold _separate_xy.
  rewrite (reshape_ok 42) by (rewrite length_skipn, Hlen; reflexivity).
  cbn [bind]. rewrite separate_loop. cbn [fst snd app concatenate concat].
  now rewrite app_nil_r.
Qed.

Lemma separated_nth (data : list R) (i : nat) :
  length data = 90%nat -> (i < 42)%nat ->
  let out := map fst (rows (skipn 6 data)) ++ map snd (rows (skipn 6 data)) in
  nth i out 0 = nth (6 + 2 * i) data 0 /\
  nth (42 + i) out 0 = nth (6 + 2 * i + 1) data 0.
Proof.
  intros Hlen Hi out. subst out.
  pose proof (hands_length data Hlen) as Hh.
  assert (Hrow : nth i (rows (skipn 6 data)) (0, 0)
                 = (nth (6 + 2 * i) data 0, nth (6 + 2 * i + 1) data 0)).
  { rewrite rows_nth by (rewrite length_skipn, Hlen; lia).
    rewrite !nth_skipn. f_equal; f_equal; lia. }
  split.
  - rewrite app_nth1 by (rewrite length_map, Hh; exact Hi).
    rewrite (nth_map_default _ _ (0, 0)) by (rewrite Hh; exact Hi).
    now rewrite Hrow.
  - rewrite app_nth2 by (rewrite length_map, Hh; lia).
    rewrite length_map, Hh. replace (42 + i - 42)%nat with i by lia.
    rewrite (nth_map_default _ _ (0, 0)) by (rewrite Hh; exact Hi).
    now rewrite Hrow.
Qed.

Lemma map_points_length (f : Point -> Point) (n : nat) (data : list R) :
  length data = (2 * n)%nat -> length (map_points f data) = (2 * n)%nat.
Proof.
  intros H. unfold map_points. rewrite flatten_length, length_map.
  now rewrite (proj2 (flatten_rows n data H)).
Qed.

(** C7. On 90 scalars [_separate_xy] drops the first six, the three reference
    points, and returns 84: the x of the 42 hand points in point order, then
    their y in point order.  The Normalizer's result keeps that arrangement:
    entry i comes from the x of hand point i and entry 42+i from its y. *)
Theorem reference_dropped_xy_separated (data : list R) :
  length data = 90%nat ->
  (exists out,
     _separate_xy data = Ok out /\
     length out = 84%nat /\
     forall i, (i < 42)%nat ->
       nth i out 0 = nth (6 + 2 * i) data 0 /\
       nth (42 + i) out 0 = nth (6 + 2 * i + 1) data 0) /\
  (forall self out,
     normalize_based_on_shoulders self data = Ok out ->
     exists scaled lo range,
       scaled_stage self data = Ok scaled /\
       length scaled = 90%nat /\
       forall i, (i < 42)%nat ->
         nth i out NaN = true_divide (nth (6 + 2 * i) scaled 0 - lo) range /\
         nth (42 + i) out NaN
         = true_divide (nth (6 + 2 * i + 1) scaled 0 - lo) range).
Proof.
  intros Hlen. split.
  - eexists. split; [now apply separate_xy_spec|]. split.
    + rewrite length_app, !length_map, hands_length by exact Hlen. reflexivity.
    + intros i Hi. now apply separated_nth.
  - intros self out Hout. rewrite normalize_stages in Hout.
    destruct (scaled_stage self data) as [scaled|e] eqn:Hs; [|discriminate].
    cbn [bind] in Hout.
    assert (Hsl : length scaled = 90%nat).
    { rewrite scaled_stage_spec in Hs by exact Hlen.
      destruct (truediv (base_shoulder_scale self) (shoulder_dist data));
        [|discriminate].
      cbn [bind] in Hs. replace scaled with
        (map (fun v => v * a)
             (map_points (shift (offset_x data) (offset_y data)) data))
        by congruence.
      rewrite length_map. now apply (map_points_length _ 45). }
    rewrite clean_data_stages, separate_xy_spec in Hout by exact Hsl.
    cbn [bind] in Hout.
    set (sep := map fst (rows (skipn 6 scaled)) ++ map snd (rows (skipn 6 scaled)))
      in *.
    assert (Hsep : length sep = 84%nat).
    { unfold sep. rewrite length_app, !length_map, hands_length by exact Hsl.
      reflexivity. }
    destruct sep as [|x t] eqn:Hx; [discriminate|].
    cbn [Np.min ptp Np.max bind] in Hout.
    exists scaled, (fold_left Rmin t x), (fold_left Rmax t x - fold_left Rmin t x).
    split; [reflexivity|]. split; [exact Hsl|].
    intros i Hi.
    replace out with
      (map (fun v => true_divide (v - fold_left Rmin t x)
                                 (fold_left Rmax t x - fold_left Rmin t x))
           (x :: t)) by congruence.
    destruct (separated_nth scaled i Hsl Hi) as [Hxi Hyi].
    fold sep in Hxi, Hyi. rewrite Hx in Hxi, Hyi.
    rewrite <- Hxi, <- Hyi.
    set (g := fun v => true_divide (v - fold_left Rmin t x)
                                   (fold_left Rmax t x - fold_left Rmin t x)).
    split.
    + rewrite (nth_indep _ NaN (g 0)) by (rewrite length_map, Hsep; lia).
      apply map_nth.
    + rewrite (nth_indep _ NaN (g 0)) by (rewrite length_map, Hsep; lia).
      apply map_nth.
Qed.

Lemma reference_dropped_xy_separated_witness :
  length sample_frame = 90%nat /\
  exists out,
    _separate_xy sample_frame = Ok out /\ nth 0 out 0 = 1 /\ nth 42 out 0 = 1 /\
    nth 1 out 0 = 0.
Proof.
  split; [reflexivity|].
  destruct (reference_dropped_xy_separated sample_frame eq_refl)
    as [(out & Hout & _ & Hnth) _].
  exists out. split; [exact Hout|].
  destruct (Hnth 0%nat ltac:(lia)) as [H0 H42].
  destruct (Hnth 1%nat ltac:(lia)) as [H1 _].
  split; [exact H0|]. split; [exact H42 | exact H1].
Defined.

(** ** The sample frame and the end-to-end scenario *)

Lemma sample_frame_dist : shoulder_dist sample_frame <> 0.
Proof.
  unfold shoulder_dist, sample_frame. cbn [app nth].
  intros H. apply hypot_zero_iff in H. lra.
Qed.

Lemma scale_nonzero (self : Normalizer) (data : list R) :
  base_shoulder_scale self <> 0 -> shoulder_dist data <> 0 ->
  scale_factor self data <> 0.
Proof.
  intros Hb Hd. unfold scale_factor, Rdiv.
  apply Rmult_integral_contrapositive. split; [exact Hb|].
  now apply Rinv_neq_0_compat.
Qed.

Lemma sample_frame_range :
  exists sep,
    pre_normalization default_normalizer sample_frame = Ok sep /\ ~ all_equal sep.
Proof.
  rewrite pre_normalization_spec by reflexivity.
  rewrite truediv_ok by exact sample_frame_dist. cbn [bind].
  eexists. split; [reflexivity|].
  fold (scale_factor default_normalizer sample_frame).
  pose proof (scale_nonzero default_normalizer sample_frame) as Hk.
  set (k := scale_factor default_normalizer sample_frame) in *.
  set (ax := offset_x sample_frame). set (ay := offset_y sample_frame).
  intros Heq.
  assert (H : (1 + ax) * k = (0 + ax) * k).
  { apply Heq; unfold hand_values, sample_frame;
      cbn [app skipn repeat rows map fst snd In]; auto. }
  apply Hk; [cbn; lra | apply sample_frame_dist | nra].
Qed.

Lemma end_to_end_flat : _flatten end_to_end_keys = Ok end_to_end_frame.
Proof. reflexivity. Qed.

Lemma end_to_end_dist : shoulder_dist end_to_end_frame <> 0.
Proof.
  unfold shoulder_dist, end_to_end_frame. cbn [app nth].
  intros H. apply hypot_zero_iff in H. lra.
Qed.

Lemma hand_values_one_point (k ax ay : R) (p : Point) (n : nat) :
  fst p + ax = snd p + ay -> all_equal (hand_values k ax ay (repeat p n)).
Proof.
  intros Hp.
  assert (H : forall v, In v (hand_values k ax ay (repeat p n)) ->
                        v = (fst p + ax) * k).
  { intros v Hv. unfold hand_values in Hv. apply in_app_or in Hv.
    destruct Hv as [Hv|Hv]; apply in_map_iff in Hv;
      destruct Hv as [q [<- Hq]]; apply repeat_spec in Hq; subst q;
      [reflexivity | now rewrite Hp]. }
  intros a b Ha Hb. rewrite (H a Ha), (H b Hb). reflexivity.
Qed.

Lemma end_to_end_degenerate :
  exists sep,
    pre_normalization default_normalizer end_to_end_frame = Ok sep /\
    all_equal sep.
Proof.
  rewrite pre_normalization_spec by reflexivity.
  rewrite truediv_ok by exact end_to_end_dist. cbn [bind].
  eexists. split; [reflexivity|].
  change (rows (skipn 6 end_to_end_frame)) with (repeat (0.5, 0.5) 42).
  apply hand_values_one_point.
  unfold offset_x, offset_y, end_to_end_frame. cbn [app nth fst snd]. lra.
Qed.

(** ** Normalizer: the scale factor *)

(** C6. On 90 scalars with a non-zero reference distance, the factor computed
    by [_get_scale] is [base_shoulder_scale] over the Euclidean distance between
    points 0 and 1 (point 2 plays no part), and [_normalize_scale] multiplies
    each of the 90 translated coordinates, those of the three reference points
    included, by that factor. *)
Theorem scale_from_first_two_points (self : Normalizer) (data : list R) :
  length data = 90%nat ->
  shoulder_dist data <> 0 ->
  let points := rows data in
  let k := base_shoulder_scale self
           / distance (nth 0 points (0, 0)) (nth 1 points (0, 0)) in
  exists adj,
    _get_adjustment_distances (firstn 3 points) = Ok adj /\
    _get_scale self (firstn 3 points) = Ok k /\
    let translated := _adjust_positions points adj in
    length translated = 45%nat /\
    _normalize_scale self translated (firstn 3 points)
    = Ok (map (fun v => v * k) (flatten translated)) /\
    scaled_stage self data = Ok (map (fun v => v * k) (flatten translated)).
Proof.
  intros Hlen Hd points k. subst points k.
  destruct (flatten_rows 45 data Hlen) as [_ Hrows].
  destruct (flat_vector_inv data Hlen)
    as (x0 & y0 & x1 & y1 & x2 & y2 & hands & -> & Hh).
  unfold shoulder_dist in Hd. cbn [nth] in Hd.
  cbn [rows firstn nth]. rewrite <- hypot_distance. cbn [fst snd].
  eexists. split; [reflexivity|].
  assert (Hscale : _get_scale self [(x0, y0); (x1, y1); (x2, y2)]
                   = Ok (base_shoulder_scale self / hypot (x1 - x0) (y1 - y0))).
  { unfold _get_scale. cbn [getitem nth_error bind fst snd].
    now apply truediv_ok. }
  split; [exact Hscale|]. cbn zeta.
  rewrite adjust_positions_map. cbn [fst snd].
  split; [now rewrite length_map|].
  split.
  - unfold _normalize_scale. rewrite Hscale. cbn [bind rows map concatenate].
    now rewrite <- concat_flatten_row.
  - unfold scaled_stage. rewrite (reshape_ok 45) by exact Hlen.
    cbn [rows firstn bind _get_adjustment_distances _get_centroid getitem
         nth_error fst snd].
    rewrite adjust_positions_map. cbn [fst snd].
    unfold _normalize_scale. rewrite Hscale. cbn [bind rows map concatenate].
    now rewrite <- concat_flatten_row.
Qed.

Lemma scale_from_first_two_points_witness :
  length sample_frame = 90%nat /\
  shoulder_dist sample_frame <> 0 /\
  _get_scale default_normalizer (firstn 3 (rows sample_frame))
  = Ok (0.25 / distance (0, 0) (1, 0)).
Proof.
  split; [reflexivity|]. split; [exact sample_frame_dist|].
  destruct (scale_from_first_two_points default_normalizer sample_frame
              eq_refl sample_frame_dist) as (adj & _ & Hscale & _).
  exact Hscale.
Defined.

(** ** Normalizer: the range of the result *)

Lemma pre_normalization_ok (self : Normalizer) (data sep : list R) :
  length data = 90%nat -> shoulder_dist data <> 0 ->
  pre_normalization self data = Ok sep ->
  sep = hand_values (scale_factor self data) (offset_x data) (offset_y data)
                    (rows (skipn 6 data)) /\
  normalize_based_on_shoulders self data = Ok (min_max sep).
Proof.
  intros Hlen Hd Hsep.
  rewrite pre_normalization_spec, truediv_ok in Hsep by assumption.
  cbn [bind] in Hsep. fold (scale_factor self data) in Hsep.
  assert (Hv : sep = hand_values (scale_factor self data) (offset_x data)
                                 (offset_y data) (rows (skipn 6 data)))
    by congruence.
  split; [exact Hv|].
  rewrite normalize_spec, truediv_ok by assumption. cbn [bind].
  fold (scale_factor self data). now rewrite Hv.
Qed.



(** C5, as stated, fails on the end-to-end scenario: all 84 pre-normalization
    values are equal, yet the Normalizer reports nothing and returns a vector. *)
Lemma end_to_end_range_unreported :
  _flatten end_to_end_keys = Ok end_to_end_frame /\
  (exists sep,
     pre_normalization default_normalizer end_to_end_frame = Ok sep /\
     all_equal sep) /\
  ~ (exists e,
       normalize_based_on_shoulders default_normalizer end_to_end_frame
       = Raise e).
Proof.
  split; [exact end_to_end_flat|]. split; [exact end_to_end_degenerate|].
  intros [e He].
  destruct end_to_end_degenerate as (sep & Hsep & Heq).
  destruct (pre_normalization_ok default_normalizer end_to_end_frame sep
              eq_refl end_to_end_dist Hsep) as [_ Hn].
  rewrite Hn in He. discriminate.
Qed.

(** ** Normalizer: invariance under shifts and uniform scalings *)

Section Invariance.

Ltac split_frame data Hlen :=
  let x0 := fresh "x0" in let y0 := fresh "y0" in
  let x1 := fresh "x1" in let y1 := fresh "y1" in
  let x2 := fresh "x2" in let y2 := fresh "y2" in
  let hands := fresh "hands" in let Hh := fresh "Hhands" in
  destruct (flat_vector_inv data Hlen)
    as (x0 & y0 & x1 & y1 & x2 & y2 & hands & -> & Hh).

Variable self : Normalizer.
Variable data : list R.
Hypothesis frame : length data = 90%nat.

Lemma hands_map_points (f : Point -> Point) :
  rows (skipn 6 (map_points f data)) = map f (rows (skipn 6 data)).
Proof.
  split_frame data frame. unfold map_points.
  cbn [rows map flatten flat_map app skipn].
  fold (flatten (map f (rows hands))). apply rows_flatten.
Qed.

Lemma shoulder_dist_shift (dx dy : R) :
  shoulder_dist (map_points (shift dx dy) data) = shoulder_dist data.
Proof.
  split_frame data frame. unfold shoulder_dist, map_points, shift.
  cbn [rows map flatten flat_map app nth fst snd]. f_equal; ring.
Qed.

Lemma offset_shift (dx dy : R) :
  offset_x (map_points (shift dx dy) data) = offset_x data - dx /\
  offset_y (map_points (shift dx dy) data) = offset_y data - dy.
Proof.
  split_frame data frame. unfold offset_x, offset_y, map_points, shift.
  cbn [rows map flatten flat_map app nth fst snd]. split; field.
Qed.

Lemma shoulder_dist_scale (ox oy s : R) :
  0 <= s ->
  shoulder_dist (map_points (scale_about ox oy s) data) = s * shoulder_dist data.
Proof.
  intros Hs. split_frame data frame. unfold shoulder_dist, map_points, scale_about.
  cbn [rows map flatten flat_map app nth fst snd].
  rewrite <- hypot_scale by exact Hs. f_equal; ring.
Qed.

Lemma offset_scale (ox oy s : R) :
  offset_x (map_points (scale_about ox oy s) data)
  = 0.5 - (ox + s * (0.5 - offset_x data - ox)) /\
  offset_y (map_points (scale_about ox oy s) data)
  = 0.5 - (oy + s * (0.5 - offset_y data - oy)).
Proof.
  split_frame data frame. unfold offset_x, offset_y, map_points, scale_about.
  cbn [rows map flatten flat_map app nth fst snd]. split; field.
Qed.

Lemma hand_values_shift (k ax ay dx dy : R) (hands : list Point) :
  hand_values k (ax - dx) (ay - dy) (map (shift dx dy) hands)
  = hand_values k ax ay hands.
Proof.
  unfold hand_values. rewrite !map_map.
  f_equal; apply map_ext; intros p; unfold shift; cbn [fst snd]; ring.
Qed.

(** Scaling the frame moves every pre-normalization value by one amount. *)
Lemma hand_values_scale (k ax ay ox oy s : R) (hands : list Point) :
  s <> 0 ->
  hand_values (k / s) (0.5 - (ox + s * (0.5 - ax - ox)))
              (0.5 - (oy + s * (0.5 - ay - oy)))
              (map (scale_about ox oy s) hands)
  = map (fun v => v + 0.5 * (1 - s) * k / s) (hand_values k ax ay hands).
Proof.
  intros Hs. unfold hand_values. rewrite map_app, !map_map.
  f_equal; apply map_ext; intros p; unfold scale_about; cbn [fst snd];
    field; exact Hs.
Qed.

End Invariance.

(** C3. On 90 scalars with a non-zero reference distance and pre-normalization
    values that are not all equal, shifting every point by one vector
    [(dx, dy)] does not change the Normalizer's result, a vector of reals. *)
Theorem translation_invariance (self : Normalizer) (data : list R) (dx dy : R) :
  length data = 90%nat ->
  shoulder_dist data <> 0 ->
  (exists sep, pre_normalization self data = Ok sep /\ ~ all_equal sep) ->
  exists out,
    normalize_based_on_shoulders self data = Ok (map Fin out) /\
    normalize_based_on_shoulders self (map_points (shift dx dy) data)
    = Ok (map Fin out).
Proof.
  intros Hlen Hd (sep & Hsep & Hne).
  destruct (pre_normalization_ok self data sep Hlen Hd Hsep) as [Hv Hn].
  destruct (min_max_range sep Hne) as (out & Hout & _).
  exists out. split; [now rewrite Hn, Hout|].
  rewrite normalize_spec by now apply (map_points_length _ 45).
  rewrite shoulder_dist_shift, truediv_ok by assumption. cbn [bind].
  rewrite hands_map_points by exact Hlen.
  destruct (offset_shift data Hlen dx dy) as [-> ->].
  rewrite hand_values_shift. fold (scale_factor self data).
  now rewrite <- Hv, Hout.
Qed.

Lemma translation_invariance_witness :
  length sample_frame = 90%nat /\
  shoulder_dist sample_frame <> 0 /\
  exists out,
    normalize_based_on_shoulders default_normalizer sample_frame
    = Ok (map Fin out) /\
    normalize_based_on_shoulders default_normalizer
      (map_points (shift 0.25 (-0.5)) sample_frame) = Ok (map Fin out).
Proof.
  split; [reflexivity|]. split; [exact sample_frame_dist|].
  exact (translation_invariance default_normalizer sample_frame 0.25 (-0.5)
           eq_refl sample_frame_dist sample_frame_range).
Defined.

(** C2. On 90 scalars with a non-zero reference distance and pre-normalization
    values that are not all equal, scaling every point by a factor [s > 0]
    about any fixed origin [(ox, oy)] does not change the Normalizer's result,
    a vector of reals. *)
Theorem scale_invariance (self : Normalizer) (data : list R) (ox oy s : R) :
  length data = 90%nat ->
  shoulder_dist data <> 0 ->
  (exists sep, pre_normalization self data = Ok sep /\ ~ all_equal sep) ->
  0 < s ->
  exists out,
    normalize_based_on_shoulders self data = Ok (map Fin out) /\
    normalize_based_on_shoulders self (map_points (scale_about ox oy s) data)
    = Ok (map Fin out).
Proof.
  intros Hlen Hd (sep & Hsep & Hne) Hs.
  destruct (pre_normalization_ok self data sep Hlen Hd Hsep) as [Hv Hn].
  destruct (min_max_range sep Hne) as (out & Hout & _).
  exists out. split; [now rewrite Hn, Hout|].
  rewrite normalize_spec by now apply (map_points_length _ 45).
  rewrite shoulder_dist_scale by (assumption || lra).
  rewrite truediv_ok by (apply Rmult_integral_contrapositive; split; lra).
  cbn [bind]. rewrite hands_map_points by exact Hlen.
  destruct (offset_scale data Hlen ox oy s) as [-> ->].
  replace (base_shoulder_scale self / (s * shoulder_dist data))
    with (scale_factor self data / s)
    by (unfold scale_factor; field; split; [exact Hd | lra]).
  rewrite hand_values_scale by lra.
  now rewrite min_max_shift, <- Hv, Hout.
Qed.

Lemma scale_invariance_witness :
  length sample_frame = 90%nat /\
  shoulder_dist sample_frame <> 0 /\
  exists out,
    normalize_based_on_shoulders default_normalizer sample_frame
    = Ok (map Fin out) /\
    normalize_based_on_shoulders default_normalizer
      (map_points (scale_about 0.5 0.5 3) sample_frame) = Ok (map Fin out).
Proof.
  split; [reflexivity|]. split; [exact sample_frame_dist|].
  exact (scale_invariance default_normalizer sample_frame 0.5 0.5 3
           eq_refl sample_frame_dist sample_frame_range ltac:(lra)).
Defined.

(** ** Normalizer: every outcome *)

(** What [normalize_based_on_shoulders] does on any input: a vector that is
    not 90 scalars long is refused by [reshape]; on 90 scalars the division in
    [_get_scale] raises when the reference distance is zero; otherwise 84
    values come back.  No index is ever out of range. *)
Theorem normalize_outcomes (self : Normalizer) (data : list R) :
  (length data <> 90%nat /\
   normalize_based_on_shoulders self data = Raise ValueError) \/
  (length data = 90%nat /\ shoulder_dist data = 0 /\
   normalize_based_on_shoulders self data = Raise ZeroDivisionError) \/
  (length data = 90%nat /\ shoulder_dist data <> 0 /\
   exists out,
     normalize_based_on_shoulders self data = Ok out /\ length out = 84%nat).
Proof.
  destruct (Nat.eq_dec (length data) 90) as [Hlen|Hlen].
  - right. destruct (Req_dec_T (shoulder_dist data) 0) as [Hd|Hd].
    + left. repeat split; try assumption.
      apply normalize_zero_division. now split.
    + right. repeat split; try assumption.
      rewrite normalize_spec, truediv_ok by assumption. cbn [bind].
      eexists. split; [reflexivity|].
      rewrite min_max_length, hand_values_length, hands_length by exact Hlen.
      reflexivity.
  - left. split; [exact Hlen | now apply normalize_shape].
Qed.

(** ** Normalizer: the reference points *)

Lemma distance_zero_iff (p q : Point) : distance p q = 0 <-> p = q.
Proof.
  rewrite <- hypot_distance, hypot_zero_iff. destruct p as [a b], q as [c d].
  cbn [fst snd]. split.
  - intros [H1 H2]. f_equal; lra.
  - intros H. injection H as -> ->. split; lra.
Qed.

(** [_get_scale] reads points 0 and 1 and nothing else: with fewer than two
    points the index is out of range, with two equal points the division
    raises, otherwise the scale is [base_shoulder_scale] over their distance. *)
Theorem get_scale_outcomes (self : Normalizer) (shoulder_points : list Point) :
  match shoulder_points with
  | p0 :: p1 :: _ =>
      (p0 = p1 /\ _get_scale self shoulder_points = Raise ZeroDivisionError) \/
      (p0 <> p1 /\
       _get_scale self shoulder_points
       = Ok (base_shoulder_scale self / distance p0 p1))
  | _ => _get_scale self shoulder_points = Raise IndexError
  end.
Proof.
  destruct shoulder_points as [|p0 [|p1 rest]]; try reflexivity.
  unfold _get_scale. cbn [getitem nth_error bind].
  rewrite hypot_distance.
  destruct (Req_dec_T (distance p0 p1) 0) as [Hd|Hd].
  - left. split; [now apply distance_zero_iff | now apply truediv_zero].
  - right. split; [|now apply truediv_ok].
    intros Heq. apply Hd. now apply distance_zero_iff.
Qed.

(** [_get_centroid] needs three points and ignores any further one. *)
Theorem get_centroid_outcomes (shoulder_points : list Point) :
  ((length shoulder_points < 3)%nat ->
   _get_centroid shoulder_points = Raise IndexError) /\
  ((3 <= length shoulder_points)%nat ->
   exists c,
     _get_centroid shoulder_points = Ok c /\
     _get_centroid (firstn 3 shoulder_points) = Ok c /\
     fst c * 3 = fst (nth 0 shoulder_points (0, 0))
                 + fst (nth 1 shoulder_points (0, 0))
                 + fst (nth 2 shoulder_points (0, 0)) /\
     snd c * 3 = snd (nth 0 shoulder_points (0, 0))
                 + snd (nth 1 shoulder_points (0, 0))
                 + snd (nth 2 shoulder_points (0, 0))).
Proof.
  destruct shoulder_points as [|p0 [|p1 [|p2 rest]]]; split; intros H;
    try reflexivity; try (simpl in H; lia).
  eexists. split; [reflexivity|]. split; [reflexivity|].
  cbn [fst snd nth]. split; field.
Qed.

(** ** Normalizer: [_separate_xy] and the shape of its input *)

(** [_separate_xy] accepts 90 scalars and nothing else, shorter than six
    included. *)
Theorem separate_xy_shape (data : list R) :
  _separate_xy data = Raise ValueError <-> length data <> 90%nat.
Proof.
  split.
  - intros H Hlen. rewrite separate_xy_spec in H by exact Hlen. discriminate.
  - intros Hlen. unfold _separate_xy.
    rewrite (reshape_bad 42); [reflexivity|].
    rewrite length_skipn. lia.
Qed.

(** ** Flattening and reshaping are inverse *)

Lemma concat_flatten (keys : list (list Point)) :
  concat (map flatten keys) = flatten (concat keys).
Proof.
  induction keys as [|part keys IH]; [reflexivity|].
  cbn [map concat]. rewrite IH. unfold flatten. now rewrite flat_map_app.
Qed.

(** [_flatten] refuses an empty list of groups; on any other it returns two
    scalars per point, and reshaping them gives back the points of the groups
    in order. *)
Theorem flatten_reshape_round_trip :
  _flatten [] = Raise ValueError /\
  forall keys : list (list Point),
    keys <> [] ->
    exists flat,
      _flatten keys = Ok flat /\
      length flat = (2 * length (concat keys))%nat /\
      reshape (length (concat keys)) flat = Ok (concat keys).
Proof.
  split; [reflexivity|]. intros keys Hne.
  exists (flatten (concat keys)). split.
  - unfold _flatten. destruct keys as [|part keys]; [congruence|].
    cbn [map concatenate]. f_equal. apply (concat_flatten (part :: keys)).
  - split; [apply flatten_length|].
    rewrite reshape_ok by apply flatten_length. now rewrite rows_flatten.
Qed.

Lemma flatten_reshape_round_trip_witness :
  exists flat,
    _flatten end_to_end_keys = Ok flat /\
    reshape 45 flat = Ok (concat end_to_end_keys).
Proof.
  destruct (proj2 flatten_reshape_round_trip end_to_end_keys ltac:(discriminate))
    as (flat & Hflat & _ & Hre).
  exists flat. split; [exact Hflat | exact Hre].
Defined.

(** Reshaping a vector of [2 * n] scalars into [n] rows and concatenating the
    rows, as [_normalize_scale] does, gives the vector back; with [n = 0]
    there is nothing to concatenate and [np.concatenate] raises. *)
Theorem reshape_concatenate_round_trip (n : nat) (data : list R) :
  length data = (2 * n)%nat ->
  (points <- reshape n data ;; concatenate (map flatten_row points))
  = match n with
    | O => Raise ValueError
    | S _ => Ok data
    end.
Proof.
  intros Hlen. rewrite reshape_ok by exact Hlen. cbn [bind].
  destruct n as [|n].
  - destruct data; [reflexivity | discriminate].
  - destruct (flatten_rows (S n) data Hlen) as [Hflat Hrows].
    destruct (rows data) as [|p pts] eqn:Hp; [discriminate|].
    cbn [map concatenate]. f_equal.
    change (concat (map flatten_row (p :: pts)) = data).
    now rewrite concat_flatten_row.
Qed.

Lemma reshape_concatenate_round_trip_witness :
  (points <- reshape 45 sample_frame ;; concatenate (map flatten_row points))
  = Ok sample_frame.
Proof.
  exact (reshape_concatenate_round_trip 45 sample_frame eq_refl).
Defined.

(** ** The selector and the frame pipeline *)

Lemma get_keypoints_short (results : Results) :
  (length (reported_or_zeros (pose_landmarks results) 33) <= 12)%nat ->
  _get_keypoints results = Raise IndexError.
Proof.
  intros Hshort. unfold _get_keypoints.
  fold (reported_or_zeros (pose_landmarks results) 33).
  unfold shoulder_points_idx. cbn [for_each]. unfold getitem at 1.
  now rewrite (proj2 (nth_error_None _ 12) Hshort).
Qed.

Lemma get_keypoints_long (results : Results) :
  let pose := reported_or_zeros (pose_landmarks results) 33 in
  (12 < length pose)%nat ->
  _get_keypoints results
  = Ok [[nth 12 pose (0, 0); nth 0 pose (0, 0); nth 11 pose (0, 0)];
        reported_or_zeros (left_hand_landmarks results) 21;
        reported_or_zeros (right_hand_landmarks results) 21].
Proof.
  intros pose Hlong. unfold _get_keypoints.
  fold (reported_or_zeros (pose_landmarks results) 33). fold pose.
  rewrite (for_each_append _ (fun p => nth p pose (0, 0))); [reflexivity|].
  intros acc p Hp. rewrite (getitem_nth pose p (0, 0)); [reflexivity|].
  unfold shoulder_points_idx in Hp. simpl in Hp.
  destruct Hp as [<-|[<-|[<-|[]]]]; lia.
Qed.

(** [_get_keypoints] picks landmarks 12, 0 and 11 of the pose, in this order,
    and hands the hand lists through unchecked.  The only failure is a
    reported pose of 12 landmarks or fewer; a group that is not reported never
    raises, zeros stand in for it. *)
Theorem get_keypoints_outcomes (results : Results) :
  let pose := reported_or_zeros (pose_landmarks results) 33 in
  let lhand := reported_or_zeros (left_hand_landmarks results) 21 in
  let rhand := reported_or_zeros (right_hand_landmarks results) 21 in
  ((length pose <= 12)%nat /\ _get_keypoints results = Raise IndexError) \/
  ((12 < length pose)%nat /\
   _get_keypoints results
   = Ok [[nth 12 pose (0, 0); nth 0 pose (0, 0); nth 11 pose (0, 0)];
         lhand; rhand]).
Proof.
  intros pose lhand rhand.
  destruct (le_lt_dec (length pose) 12) as [Hshort|Hlong].
  - left. split; [exact Hshort|]. now apply get_keypoints_short.
  - right. split; [exact Hlong|]. now apply get_keypoints_long.
Qed.

Lemma get_keypoints_no_pose (results : Results) :
  pose_landmarks results = None ->
  _get_keypoints results
  = Ok [zeros 3;
        reported_or_zeros (left_hand_landmarks results) 21;
        reported_or_zeros (right_hand_landmarks results) 21].
Proof.
  intros Hnone.
  rewrite get_keypoints_long by (rewrite Hnone; simpl; lia).
  rewrite Hnone. reflexivity.
Qed.

(** A frame on which no pose is detected never yields a feature vector: the
    zero-filled reference points make [_get_scale] divide by zero.  Only the
    total number of hand points is checked before that, by [reshape]. *)
Theorem frame_without_pose (normalizer : Normalizer) (results : Results) :
  pose_landmarks results = None ->
  let lhand := reported_or_zeros (left_hand_landmarks results) 21 in
  let rhand := reported_or_zeros (right_hand_landmarks results) 21 in
  frame_features normalizer results
  = if Nat.eqb (length lhand + length rhand) 42
    then Raise ZeroDivisionError
    else Raise ValueError.
Proof.
  intros Hnone lhand rhand. unfold frame_features.
  rewrite get_keypoints_no_pose by exact Hnone. fold lhand rhand.
  cbn [bind]. unfold _flatten. cbn [map concatenate concat bind].
  rewrite app_nil_r.
  set (data := flatten (zeros 3) ++ flatten lhand ++ flatten rhand).
  assert (Hlen : length data = (6 + 2 * (length lhand + length rhand))%nat).
  { unfold data. rewrite !length_app, !flatten_length. cbn [zeros repeat length]. lia. }
  destruct (Nat.eqb_spec (length lhand + length rhand) 42) as [H42|H42].
  - apply normalize_zero_division. split; [lia|].
    unfold data, shoulder_dist. cbn [zeros repeat flatten flat_map app nth fst snd].
    apply hypot_zero_iff. lra.
  - apply normalize_shape. lia.
Qed.

Lemma frame_without_pose_witness :
  frame_features default_normalizer
    {| pose_landmarks := None;
       left_hand_landmarks := Some sample_hand;
       right_hand_landmarks := None |}
  = Raise ZeroDivisionError.
Proof.
  exact (frame_without_pose default_normalizer
           {| pose_landmarks := None;
              left_hand_landmarks := Some sample_hand;
              right_hand_landmarks := None |} eq_refl).
Defined.

Section TwoValues.

Lemma fold_Rmin_unique (t : list R) (x m : R) :
  In m (x :: t) -> (forall v, In v (x :: t) -> m <= v) -> fold_left Rmin t x = m.
Proof.
  intros Hin Hle. pose proof (Hle _ (fold_Rmin_In t x)) as H1.
  destruct (fold_Rmin_le t x) as [H2 H3].
  assert (fold_left Rmin t x <= m) by (destruct Hin as [<-|Hin]; auto).
  lra.
Qed.

Lemma fold_Rmax_unique (t : list R) (x m : R) :
  In m (x :: t) -> (forall v, In v (x :: t) -> v <= m) -> fold_left Rmax t x = m.
Proof.
  intros Hin Hle. pose proof (Hle _ (fold_Rmax_In t x)) as H1.
  destruct (fold_Rmax_ge t x) as [H2 H3].
  assert (m <= fold_left Rmax t x) by (destruct Hin as [<-|Hin]; auto).
  lra.
Qed.

Lemma map_repeat_const {A B : Type} (f : A -> B) (a : A) (n : nat) :
  map f (repeat a n) = repeat (f a) n.
Proof. induction n as [|n IH]; simpl; [reflexivity | now rewrite IH]. Qed.

(** Min-max scaling of a vector that takes one value on its first half and
    another on its second. *)
Lemma min_max_two_blocks (u v : R) (n : nat) :
  exists a b,
    min_max (repeat u (S n) ++ repeat v (S n))
    = repeat a (S n) ++ repeat b (S n) /\
    ((u < v /\ a = Fin 0 /\ b = Fin 1) \/
     (v < u /\ a = Fin 1 /\ b = Fin 0) \/
     (u = v /\ a = NaN /\ b = NaN)).
Proof.
  set (l := repeat u (S n) ++ repeat v (S n)).
  assert (Hu : In u l) by (apply in_or_app; left; now left).
  assert (Hv : In v l).
  { apply in_or_app; right; now left. }
  assert (Hl : forall w, In w l -> w = u \/ w = v).
  { intros w Hw. apply in_app_or in Hw.
    destruct Hw as [Hw|Hw]; apply repeat_spec in Hw; auto. }
  assert (Hmm : forall lo hi,
             (forall w, In w l -> lo <= w) -> In lo l ->
             (forall w, In w l -> w <= hi) -> In hi l ->
             min_max l = repeat (true_divide (u - lo) (hi - lo)) (S n)
                         ++ repeat (true_divide (v - lo) (hi - lo)) (S n)).
  { intros lo hi Hlo Ilo Hhi Ihi. unfold l in *. cbn [repeat app] in *.
    unfold min_max.
    rewrite (fold_Rmin_unique _ _ lo Ilo Hlo), (fold_Rmax_unique _ _ hi Ihi Hhi).
    change (u :: repeat u n ++ v :: repeat v n)
      with (repeat u (S n) ++ repeat v (S n)).
    now rewrite map_app, !map_repeat_const. }
  destruct (Rtotal_order u v) as [Hlt|[Heq|Hgt]].
  - exists (Fin 0), (Fin 1). split; [|left; now repeat split].
    rewrite (Hmm u v); try assumption.
    + rewrite !true_divide_fin by lra. do 2 f_equal; f_equal; field; lra.
    + intros w Hw. destruct (Hl w Hw); lra.
    + intros w Hw. destruct (Hl w Hw); lra.
  - exists NaN, NaN. split; [|right; right; now repeat split].
    rewrite (Hmm u u); try assumption.
    + subst v. now rewrite !Rminus_diag, true_divide_nan.
    + intros w Hw. destruct (Hl w Hw); lra.
    + intros w Hw. destruct (Hl w Hw); lra.
  - exists (Fin 1), (Fin 0). split; [|right; left; now repeat split].
    rewrite (Hmm v u); try assumption.
    + rewrite !true_divide_fin by lra. do 2 f_equal; f_equal; field; lra.
    + intros w Hw. destruct (Hl w Hw); lra.
    + intros w Hw. destruct (Hl w Hw); lra.
Qed.

End TwoValues.

(** A frame on which no hand is detected carries no hand information: if a
    vector comes back at all, its 42 x entries are one value and its 42 y
    entries another, 0 and 1 in one order or the other, or NaN throughout. *)
Theorem frame_without_hands (normalizer : Normalizer) (results : Results)
        (out : list float64) :
  left_hand_landmarks results = None ->
  right_hand_landmarks results = None ->
  frame_features normalizer results = Ok out ->
  exists a b,
    out = repeat a 42 ++ repeat b 42 /\
    ((a = Fin 0 /\ b = Fin 1) \/ (a = Fin 1 /\ b = Fin 0) \/
     (a = NaN /\ b = NaN)).
Proof.
  intros Hl Hr Hout. unfold frame_features in Hout.
  destruct (le_lt_dec (length (reported_or_zeros (pose_landmarks results) 33)) 12)
    as [Hshort|Hlong].
  { rewrite get_keypoints_short in Hout by exact Hshort. discriminate. }
  rewrite get_keypoints_long in Hout by exact Hlong.
  rewrite Hl, Hr in Hout. cbn [bind reported_or_zeros] in Hout.
  set (pose := reported_or_zeros (pose_landmarks results) 33) in *.
  destruct (nth 12 pose (0, 0)) as [x0 y0], (nth 0 pose (0, 0)) as [x1 y1],
           (nth 11 pose (0, 0)) as [x2 y2].
  unfold _flatten in Hout. cbn [map concatenate concat bind] in Hout.
  rewrite app_nil_r in Hout.
  set (data := flatten [(x0, y0); (x1, y1); (x2, y2)]
               ++ flatten (zeros 21) ++ flatten (zeros 21)) in *.
  assert (Hlen : length data = 90%nat) by reflexivity.
  rewrite normalize_spec in Hout by exact Hlen.
  destruct (truediv (base_shoulder_scale normalizer) (shoulder_dist data))
    as [k|e]; [|discriminate].
  cbn [bind] in Hout.
  change (rows (skipn 6 data)) with (repeat ((0, 0) : R * R) 42) in Hout.
  unfold hand_values in Hout. rewrite !map_repeat_const in Hout.
  destruct (min_max_two_blocks ((fst ((0, 0) : R * R) + offset_x data) * k)
                               ((snd ((0, 0) : R * R) + offset_y data) * k) 41)
    as (a & b & Hm & Hcases).
  exists a, b. split; [congruence|].
  destruct Hcases as [(_ & -> & ->)|[(_ & -> & ->)|(_ & -> & ->)]]; auto.
Qed.

Lemma pose_only_features :
  exists out, frame_features default_normalizer pose_only_results = Ok out.
Proof.
  unfold frame_features.
  rewrite get_keypoints_long by (simpl; lia).
  cbn [bind]. unfold _flatten. cbn [map concatenate bind].
  set (data := concat _).
  assert (Hlen : length data = 90%nat) by reflexivity.
  assert (Hd : shoulder_dist data <> 0).
  { unfold shoulder_dist, data.
    cbn [pose_only_results pose_landmarks reported_or_zeros repeat app nth
         concat flatten flat_map fst snd].
    intros H. apply hypot_zero_iff in H. lra. }
  rewrite normalize_spec, truediv_ok by assumption. cbn [bind].
  eexists. reflexivity.
Qed.

Lemma frame_without_hands_witness :
  exists out a b,
    frame_features default_normalizer pose_only_results = Ok out /\
    out = repeat a 42 ++ repeat b 42.
Proof.
  destruct pose_only_features as [out Hout].
  destruct (frame_without_hands default_normalizer pose_only_results out
              eq_refl eq_refl Hout) as (a & b & Hab & _).
  exists out, a, b. split; [exact Hout | exact Hab].
Defined.

(** ** Calculator: bounds *)

Lemma calculate_hand_lines_long (hand : list Point) :
  (21 <= length hand)%nat ->
  calculate_hand_lines hand = Ok (map (line_length hand) line_pairs).
Proof.
  intros Hlen. unfold calculate_hand_lines.
  rewrite (for_each_append _ (line_length hand)); [reflexivity|].
  intros acc pair Hin.
  pose proof (proj1 (Forall_forall _ _) line_pairs_in_range pair Hin) as [H0 H1].
  rewrite (getitem_nth hand (fst pair) (0, 0)) by lia.
  rewrite (getitem_nth hand (snd pair) (0, 0)) by lia.
  reflexivity.
Qed.

Lemma calculate_hand_lines_short (hand : list Point) :
  (length hand < 21)%nat -> calculate_hand_lines hand = Raise IndexError.
Proof.
  intros Hlen.
  do 21 (destruct hand as [|? hand]; [reflexivity|]).
  simpl in Hlen. lia.
Qed.

(** [calculate_hand_lines] needs 21 points: with fewer some index of
    [line_pairs] is out of range; points after the 21st are never read. *)
Theorem hand_lines_bounds (hand : list Point) :
  ((length hand < 21)%nat -> calculate_hand_lines hand = Raise IndexError) /\
  ((21 <= length hand)%nat ->
   exists out,
     calculate_hand_lines hand = Ok out /\
     length out = 21%nat /\
     calculate_hand_lines (firstn 21 hand) = Ok out).
Proof.
  split; [apply calculate_hand_lines_short|].
  intros Hlen. exists (map (line_length hand) line_pairs).
  split; [now apply calculate_hand_lines_long|]. split; [reflexivity|].
  rewrite calculate_hand_lines_long by (rewrite length_firstn; lia).
  f_equal. apply map_ext_in. intros pair Hin.
  pose proof (proj1 (Forall_forall _ _) line_pairs_in_range pair Hin) as [H0 H1].
  unfold line_length.
  rewrite <- (firstn_skipn 21 hand) at 3 4.
  rewrite !app_nth1 by (rewrite length_firstn; lia). reflexivity.
Qed.

Lemma hand_lines_bounds_witness :
  calculate_hand_lines (firstn 20 sample_hand) = Raise IndexError /\
  exists out,
    calculate_hand_lines (sample_hand ++ [(7, 7)]) = Ok out /\
    calculate_hand_lines (firstn 21 (sample_hand ++ [(7, 7)])) = Ok out.
Proof.
  split.
  - apply (proj1 (hand_lines_bounds (firstn 20 sample_hand))). cbn. lia.
  - destruct (proj2 (hand_lines_bounds (sample_hand ++ [(7, 7)]))
                ltac:(cbn; lia)) as (out & H1 & _ & H2).
    exists out. split; assumption.
Defined.

(** ** The word list *)

Section TextLemmas.

Lemma LF_not_CR : LF <> CR.
Proof. discriminate. Qed.

Lemma isspace_LF : isspace LF = true.
Proof. reflexivity. Qed.

Lemma rstrip_snoc_space (s : text) (c : char) :
  isspace c = true -> rstrip (s ++ [c]) = rstrip s.
Proof.
  intros Hc. induction s as [|x s IH]; simpl.
  - now rewrite Hc.
  - now rewrite IH.
Qed.

Lemma rstrip_idempotent (s : text) : rstrip (rstrip s) = rstrip s.
Proof.
  induction s as [|x s IH]; [reflexivity|]. simpl.
  destruct (rstrip s) as [|y r] eqn:Hr.
  - destruct (isspace x) eqn:Hx; [reflexivity|]. simpl. now rewrite Hx.
  - change (rstrip (x :: y :: r)) with
      (match rstrip (y :: r) with
       | [] => if isspace x then [] else [x]
       | r' => x :: r'
       end).
    now rewrite IH.
Qed.

Lemma rstrip_In (s : text) (c : char) : In c (rstrip s) -> In c s.
Proof.
  induction s as [|x s IH]; [trivial|]. simpl.
  destruct (rstrip s) as [|y r].
  - destruct (isspace x); [intros [] | intros [<-|[]]; now left].
  - intros [<-|H]; [now left | right; now apply IH].
Qed.

Lemma lines_nonempty (s : text) : s <> [] -> lines s <> [].
Proof.
  destruct s as [|c t]; [congruence|]. intros _. simpl.
  destruct (Ascii.ascii_dec c LF); [discriminate|].
  destruct (lines t); discriminate.
Qed.

Lemma lines_snoc (a b : text) :
  lines (a ++ LF :: b) = lines (a ++ [LF]) ++ lines b.
Proof.
  induction a as [|x a IH]; simpl.
  - destruct (Ascii.ascii_dec LF LF) as [_|H]; [reflexivity | now elim H].
  - destruct (Ascii.ascii_dec x LF); [now rewrite IH|].
    rewrite IH.
    destruct (lines (a ++ [LF])) as [|l ls] eqn:Hl; [|reflexivity].
    exfalso. apply (lines_nonempty (a ++ [LF])); [|exact Hl].
    now destruct a.
Qed.

Lemma terminated_inv (c : text) :
  terminated c -> c = [] \/ exists c', c = c' ++ [LF].
Proof.
  intros H. destruct c as [|x t]; [now left|]. right.
  exists (removelast (x :: t)).
  pose proof (@app_removelast_last _ (x :: t) LF ltac:(discriminate)) as E.
  unfold terminated in H. now rewrite H in E.
Qed.

Lemma terminated_snoc (c : text) : terminated (c ++ [LF]).
Proof. unfold terminated. apply last_last. Qed.

(** After an ended line the file splits into lines where it stands. *)
Lemma lines_app (a b : text) :
  terminated a -> lines (a ++ b) = lines a ++ lines b.
Proof.
  intros H. destruct (terminated_inv a H) as [->|[a' ->]]; [reflexivity|].
  rewrite <- app_assoc. apply lines_snoc.
Qed.

Lemma lines_one (w : text) : ~ In LF w -> lines (w ++ [LF]) = [w ++ [LF]].
Proof.
  induction w as [|x w IH]; intros Hw; simpl.
  - destruct (Ascii.ascii_dec LF LF) as [_|H]; [reflexivity | now elim H].
  - destruct (Ascii.ascii_dec x LF) as [->|Hx]; [elim Hw; now left|].
    rewrite IH by (intros H; apply Hw; now right). reflexivity.
Qed.

(** A line holds at most one line feed, as its last character. *)
Lemma lines_shape (s l : text) :
  In l (lines s) ->
  exists body, ~ In LF body /\ (l = body \/ l = body ++ [LF]).
Proof.
  revert l. induction s as [|c t IH]; intros l; simpl; [intros []|].
  destruct (Ascii.ascii_dec c LF) as [->|Hc].
  - intros [<-|H]; [|now apply IH].
    exists []. split; [tauto | now right].
  - destruct (lines t) as [|l0 ls] eqn:Hl.
    + intros [<-|[]]. exists [c]. split; [|now left].
      intros [H|[]]. now apply Hc.
    + intros [<-|H]; [|apply IH; now right].
      destruct (IH l0 (or_introl eq_refl)) as (body & Hb & Hl0).
      exists (c :: body). split.
      * intros [H|H]; [now apply Hc | now apply Hb].
      * destruct Hl0 as [->| ->]; [now left | now right].
Qed.

Lemma universal_newlines_no_CR_upto (n : nat) : forall s : text,
  (length s <= n)%nat -> ~ In CR (universal_newlines s).
Proof.
  induction n as [|n IH]; intros s Hn.
  - destruct s; [tauto | simpl in Hn; lia].
  - destruct s as [|c t]; [tauto|]. simpl in Hn. simpl.
    destruct (Ascii.ascii_dec c CR) as [->|Hc].
    + intros [H|H]; [now apply LF_not_CR|].
      destruct t as [|c' t']; [exact H|].
      simpl in Hn.
      destruct (Ascii.ascii_dec c' LF);
        [apply (IH t') | apply (IH (c' :: t'))]; simpl; try lia; exact H.
    + intros [H|H]; [now apply Hc | apply (IH t); [lia | exact H]].
Qed.

Lemma universal_newlines_no_CR (s : text) : ~ In CR (universal_newlines s).
Proof. apply (universal_newlines_no_CR_upto (length s)). lia. Qed.

Lemma lines_In (s l : text) (c : char) : In l (lines s) -> In c l -> In c s.
Proof.
  revert l. induction s as [|x t IH]; intros l; simpl; [intros []|].
  destruct (Ascii.ascii_dec x LF) as [->|Hx].
  - intros [<-|H] Hc; [destruct Hc as [<-|[]]; now left|].
    right. now apply (IH l).
  - destruct (lines t) as [|l0 ls] eqn:Hl.
    + intros [<-|[]] [<-|[]]. now left.
    + intros [<-|H] Hc.
      * destruct Hc as [<-|Hc]; [now left|]. right. apply (IH l0); [now left|exact Hc].
      * right. apply (IH l); [now right | exact Hc].
Qed.

(** What the comprehension can yield: words that [rstrip] leaves alone and
    that hold no line break. *)
Lemma current_words_clean (file : option text) (w : text) :
  In w (current_words file) -> clean w.
Proof.
  unfold current_words. intros H. apply in_map_iff in H.
  destruct H as (l & <- & Hl). split; [apply rstrip_idempotent|]. split.
  - destruct (lines_shape _ _ Hl) as (body & Hb & [->| ->]).
    + intros H. apply Hb. now apply rstrip_In.
    + rewrite rstrip_snoc_space by exact isspace_LF.
      intros H. apply Hb. now apply rstrip_In.
  - intros H. apply rstrip_In in H.
    apply (universal_newlines_no_CR (content file)).
    now apply (lines_In _ l).
Qed.

Lemma last_cons (c : char) (t : text) (d : char) :
  t <> [] -> last (c :: t) d = last t d.
Proof. destruct t; [congruence | reflexivity]. Qed.

Lemma universal_newlines_app_upto (n : nat) : forall a b : text,
  (length a <= n)%nat -> last a LF <> CR ->
  universal_newlines (a ++ b) = universal_newlines a ++ universal_newlines b.
Proof.
  induction n as [|n IH]; intros a b Hn Ha.
  - destruct a; [reflexivity | simpl in Hn; lia].
  - destruct a as [|c t]; [reflexivity|]. simpl in Hn.
    assert (Ht : t <> [] -> last t LF <> CR)
      by (intros Hne; now rewrite <- (last_cons c t LF Hne)).
    destruct t as [|c' t'].
    + simpl. destruct (Ascii.ascii_dec c CR) as [->|Hc]; [now elim Ha|].
      reflexivity.
    + specialize (Ht ltac:(discriminate)).
      change ((c :: c' :: t') ++ b) with (c :: c' :: (t' ++ b)).
      cbn [universal_newlines].
      destruct (Ascii.ascii_dec c CR) as [->|Hc].
      * destruct (Ascii.ascii_dec c' LF) as [->|Hc'].
        -- cbn [app]. f_equal. apply IH; [simpl in Hn; lia|].
           destruct t' as [|c'' t'']; [apply LF_not_CR|].
           now rewrite <- (last_cons LF (c'' :: t'') LF ltac:(discriminate)).
        -- cbn [app]. f_equal.
           change (c' :: (t' ++ b)) with ((c' :: t') ++ b) in *.
           fold universal_newlines.
           apply (IH (c' :: t') b); [lia | exact Ht].
      * cbn [app]. f_equal.
        change (c' :: (t' ++ b)) with ((c' :: t') ++ b).
        apply (IH (c' :: t') b); [lia | exact Ht].
Qed.

Lemma universal_newlines_app (a b : text) :
  terminated a ->
  universal_newlines (a ++ b) = universal_newlines a ++ universal_newlines b.
Proof.
  intros H. apply (universal_newlines_app_upto (length a)); [lia|].
  unfold terminated in H. rewrite H. apply LF_not_CR.
Qed.

Lemma universal_newlines_CR_LF (t : text) :
  universal_newlines (CR :: LF :: t) = LF :: universal_newlines t.
Proof. reflexivity. Qed.

Lemma universal_newlines_CR (c : char) (t : text) :
  c <> LF ->
  universal_newlines (CR :: c :: t) = LF :: universal_newlines (c :: t).
Proof.
  intros Hc. simpl.
  destruct (Ascii.ascii_dec c LF); [contradiction | reflexivity].
Qed.

Lemma universal_newlines_other (c : char) (t : text) :
  c <> CR -> universal_newlines (c :: t) = c :: universal_newlines t.
Proof.
  intros Hc. simpl.
  destruct (Ascii.ascii_dec c CR); [contradiction | reflexivity].
Qed.

Lemma last_cons_terminated (c : char) (r : text) :
  terminated r -> r <> [] -> terminated (c :: r).
Proof. intros H Hr. unfold terminated. now rewrite last_cons. Qed.

Lemma universal_newlines_nonempty (c : char) (t : text) :
  universal_newlines (c :: t) <> [].
Proof.
  simpl. destruct (Ascii.ascii_dec c CR); discriminate.
Qed.

Lemma universal_newlines_terminated_upto (n : nat) : forall a : text,
  (length a <= n)%nat -> terminated a -> terminated (universal_newlines a).
Proof.
  induction n as [|n IH]; intros a Hn Ha.
  - destruct a; [reflexivity | simpl in Hn; lia].
  - destruct a as [|c t]; [reflexivity|]. simpl in Hn.
    destruct t as [|c' t'].
    + unfold terminated in Ha. simpl in Ha. subst c. reflexivity.
    + assert (Ht : terminated (c' :: t')).
      { unfold terminated in *. now rewrite last_cons in Ha by discriminate. }
      destruct (Ascii.ascii_dec c CR) as [->|Hc].
      * destruct (Ascii.ascii_dec c' LF) as [->|Hc'].
        -- rewrite universal_newlines_CR_LF.
           destruct t' as [|c'' t'']; [reflexivity|].
           apply last_cons_terminated; [|apply universal_newlines_nonempty].
           apply IH; [simpl in *; lia|].
           unfold terminated in *. now rewrite last_cons in Ht by discriminate.
        -- rewrite universal_newlines_CR by exact Hc'.
           apply last_cons_terminated; [|apply universal_newlines_nonempty].
           apply IH; [simpl in *; lia | exact Ht].
      * rewrite universal_newlines_other by exact Hc.
        apply last_cons_terminated; [|apply universal_newlines_nonempty].
        apply IH; [simpl in *; lia | exact Ht].
Qed.

Lemma universal_newlines_terminated (a : text) :
  terminated a -> terminated (universal_newlines a).
Proof. apply (universal_newlines_terminated_upto (length a)). lia. Qed.

Lemma universal_newlines_plain (w : text) :
  ~ In CR w -> universal_newlines w = w.
Proof.
  induction w as [|c w IH]; intros Hw; [reflexivity|]. simpl.
  destruct (Ascii.ascii_dec c CR) as [->|Hc]; [elim Hw; now left|].
  rewrite IH by (intros H; apply Hw; now right). reflexivity.
Qed.

Lemma written_line (p : platform) (w : text) :
  ~ In LF w -> written p (w ++ [LF]) = w ++ linesep p.
Proof.
  intros Hw. unfold written. rewrite flat_map_app. f_equal.
  - induction w as [|c w IH]; [reflexivity|]. simpl.
    destruct (Ascii.ascii_dec c LF) as [->|Hc]; [elim Hw; now left|].
    rewrite IH by (intros H; apply Hw; now right). reflexivity.
  - simpl. destruct (Ascii.ascii_dec LF LF) as [_|H]; [|now elim H].
    apply app_nil_r.
Qed.

Lemma last_not_CR (w : text) : ~ In CR w -> last w LF <> CR.
Proof.
  induction w as [|c w IH]; intros Hw; [apply LF_not_CR|].
  destruct w as [|c' w'].
  - simpl. intros H. apply Hw. now left.
  - rewrite last_cons by discriminate. apply IH. intros H. apply Hw. now right.
Qed.

(** A clean word written as a line reads back as that line. *)
Lemma read_written_line (p : platform) (w : text) :
  ~ In LF w -> ~ In CR w ->
  universal_newlines (written p (w ++ [LF])) = w ++ [LF].
Proof.
  intros Hlf Hcr. rewrite written_line by exact Hlf.
  rewrite (universal_newlines_app_upto (length w))
    by (try lia; now apply last_not_CR).
  rewrite universal_newlines_plain by exact Hcr. f_equal.
  destruct p; reflexivity.
Qed.

Lemma written_terminated (p : platform) (c w : text) :
  ~ In LF w -> terminated (c ++ written p (w ++ [LF])).
Proof.
  intros Hw. rewrite written_line by exact Hw. unfold terminated.
  destruct p; cbn [linesep].
  - rewrite app_assoc. apply last_last.
  - change [CR; LF] with ([CR] ++ [LF]). rewrite !app_assoc. apply last_last.
Qed.

(** Appending a clean word to a file whose last line is ended adds exactly
    that word to what the comprehension reads. *)
Lemma current_words_appended (p : platform) (c w : text) :
  terminated c -> clean w ->
  current_words (Some (c ++ written p (w ++ [LF])))
  = current_words (Some c) ++ [w].
Proof.
  intros Hc (Hr & Hlf & Hcr). unfold current_words. cbn [content].
  rewrite universal_newlines_app by exact Hc.
  rewrite read_written_line by assumption.
  rewrite lines_app by now apply universal_newlines_terminated.
  rewrite lines_one by exact Hlf.
  rewrite map_app. cbn [map].
  now rewrite rstrip_snoc_space, Hr by exact isspace_LF.
Qed.

Lemma contains_spec (l : list text) (w : text) : contains l w = true <-> In w l.
Proof.
  unfold contains. destruct (in_dec (list_eq_dec Ascii.ascii_dec) w l);
    split; intros H; try assumption; try reflexivity; try discriminate.
  contradiction.
Qed.

End TextLemmas.

Section WordList.

Variable p : platform.

Lemma update_wordlist_new (file : option text) (word : text) :
  ~ In word (current_words file) ->
  _update_wordlist p file word
  = (Some (content file ++ written p (word ++ [LF])), []).
Proof.
  intros Hnew. unfold _update_wordlist.
  replace (current_words match file with Some c => Some c | None => Some [] end)
    with (current_words file) by now destruct file.
  destruct (contains (current_words file) word) eqn:Hc.
  - apply contains_spec in Hc. contradiction.
  - cbn [negb]. now destruct file.
Qed.

Lemma update_wordlist_known (file : option text) (word : text) :
  In word (current_words file) ->
  _update_wordlist p file word = (Some (content file), [overriding ++ word]).
Proof.
  intros Hin. unfold _update_wordlist.
  replace (current_words match file with Some c => Some c | None => Some [] end)
    with (current_words file) by now destruct file.
  rewrite (proj2 (contains_spec _ _) Hin). cbn [negb]. now destruct file.
Qed.

Lemma in_words_dec (l : list text) (w : text) : {In w l} + {~ In w l}.
Proof. apply in_dec, list_eq_dec, Ascii.ascii_dec. Qed.

(** One call on a well-ended file with a clean word. *)
Lemma update_wordlist_step (file : option text) (word : text) :
  terminated (content file) -> clean word ->
  let file' := fst (_update_wordlist p file word) in
  terminated (content file') /\
  (In word (current_words file) -> current_words file' = current_words file) /\
  (~ In word (current_words file) ->
   current_words file' = current_words file ++ [word]).
Proof.
  intros Hterm Hclean file'. subst file'.
  destruct (in_words_dec (current_words file) word) as [Hin|Hnew].
  - rewrite update_wordlist_known by exact Hin. cbn [fst content].
    split; [exact Hterm|]. split; [reflexivity | contradiction].
  - rewrite update_wordlist_new by exact Hnew. cbn [fst content].
    split; [apply written_terminated, Hclean|].
    split; [contradiction|]. intros _.
    rewrite current_words_appended by assumption. reflexivity.
Qed.

End WordList.

(** Registering a clean word in a word list whose last line is ended puts it
    on the list, and registering it again changes nothing: the second call
    only prints the notice. *)
Theorem wordlist_registers_once (p : platform) (file : option text)
        (word : text) :
  terminated (content file) ->
  clean word ->
  let file' := fst (_update_wordlist p file word) in
  In word (current_words file') /\
  terminated (content file') /\
  _update_wordlist p file' word = (file', [overriding ++ word]).
Proof.
  intros Hterm Hclean file'.
  destruct (update_wordlist_step p file word Hterm Hclean) as (Ht & Hold & Hnew).
  fold file' in Ht, Hold, Hnew.
  assert (Hin : In word (current_words file')).
  { destruct (in_words_dec (current_words file) word) as [H|H].
    - now rewrite Hold.
    - rewrite Hnew by exact H. apply in_or_app. right. now left. }
  split; [exact Hin|]. split; [exact Ht|].
  rewrite update_wordlist_known by exact Hin. f_equal.
  subst file'. unfold _update_wordlist.
  destruct (negb _); destruct file; reflexivity.
Qed.

Lemma word_hi_clean : clean word_hi.
Proof.
  split; [reflexivity|]. split; intros H; vm_compute in H;
    repeat (destruct H as [H|H]; [discriminate H|]); exact H.
Qed.

Lemma wordlist_registers_once_witness :
  let file' := fst (_update_wordlist Posix None word_hi) in
  file' = Some (word_hi ++ [LF]) /\
  _update_wordlist Posix file' word_hi = (file', [overriding ++ word_hi]).
Proof.
  split; [reflexivity|].
  exact (proj2 (proj2 (wordlist_registers_once Posix None word_hi eq_refl
                         word_hi_clean))).
Defined.

(** A word that ends in whitespace or holds a line break is never found on
    the list, whatever the file holds: every call appends it once more. *)
Theorem unclean_word_always_appended (p : platform) (file : option text)
        (word : text) :
  ~ clean word ->
  _update_wordlist p file word
  = (Some (content file ++ written p (word ++ [LF])), []).
Proof.
  intros Hword. apply update_wordlist_new.
  intros Hin. apply Hword. now apply (current_words_clean file).
Qed.

Lemma word_hi_blank_unclean : ~ clean word_hi_blank.
Proof. intros [H _]. vm_compute in H. discriminate H. Qed.

Lemma unclean_word_always_appended_witness :
  let file' := fst (_update_wordlist Posix None word_hi_blank) in
  fst (_update_wordlist Posix file' word_hi_blank)
  = Some ((word_hi_blank ++ [LF]) ++ word_hi_blank ++ [LF]).
Proof.
  intros file'.
  rewrite (unclean_word_always_appended Posix file' word_hi_blank
             word_hi_blank_unclean).
  reflexivity.
Defined.

Lemma register_all_invariant (p : platform) (words : list text) :
  Forall clean words ->
  forall file : option text,
    terminated (content file) ->
    NoDup (current_words file) ->
    let file' := register_all p words file in
    terminated (content file') /\
    NoDup (current_words file') /\
    forall w, In w (current_words file') <->
              In w (current_words file) \/ In w words.
Proof.
  induction words as [|word words IH]; intros Hclean file Hterm Hnd.
  - cbn. repeat split; try assumption; tauto.
  - apply Forall_cons_iff in Hclean. destruct Hclean as [Hw Hws].
    destruct (update_wordlist_step p file word Hterm Hw) as (Ht & Hold & Hnew).
    set (file1 := fst (_update_wordlist p file word)) in *.
    assert (Hnd1 : NoDup (current_words file1)).
    { destruct (in_words_dec (current_words file) word) as [H|H].
      - now rewrite Hold.
      - rewrite Hnew by exact H. apply NoDup_app; [exact Hnd | | ].
        + constructor; [tauto | constructor].
        + intros a Ha [<-|[]]. contradiction. }
    destruct (IH Hws file1 Ht Hnd1) as (Ht' & Hnd' & Hin').
    change (register_all p (word :: words) file)
      with (register_all p words file1).
    split; [exact Ht'|]. split; [exact Hnd'|].
    intros w. rewrite Hin'. cbn [In].
    destruct (in_words_dec (current_words file) word) as [H|H].
    + rewrite Hold by exact H. split; [tauto|].
      intros [Hc|[<-|Hc]]; tauto.
    + rewrite Hnew by exact H. rewrite in_app_iff. cbn [In]. tauto.
Qed.

(** Starting without a word list and registering clean words one after the
    other, in any order and with any repetitions, leaves a list that holds
    every registered word exactly once and nothing else. *)
Theorem word_list_distinct (p : platform) (words : list text) :
  Forall clean words ->
  let file := register_all p words None in
  NoDup (current_words file) /\
  forall w, In w (current_words file) <-> In w words.
Proof.
  intros Hclean file.
  destruct (register_all_invariant p words Hclean None eq_refl)
    as (_ & Hnd & Hin); [constructor|].
  fold file in Hnd, Hin. split; [exact Hnd|].
  intros w. rewrite Hin. cbn. tauto.
Qed.

Lemma word_yes_clean : clean word_yes.
Proof.
  split; [reflexivity|]. split; intros H; vm_compute in H;
    repeat (destruct H as [H|H]; [discriminate H|]); exact H.
Qed.

Lemma word_list_distinct_witness :
  NoDup (current_words (register_all Posix [word_hi; word_yes; word_hi] None)) /\
  In word_yes (current_words (register_all Posix [word_hi; word_yes; word_hi] None)).
Proof.
  destruct (word_list_distinct Posix [word_hi; word_yes; word_hi]
              (Forall_cons _ word_hi_clean
                 (Forall_cons _ word_yes_clean
                    (Forall_cons _ word_hi_clean (Forall_nil _)))))
    as [Hnd Hin].
  split; [exact Hnd|]. apply Hin. right. now left.
Defined.

Lemma get_centroid_outcomes_witness :
  _get_centroid [(0, 0); (1, 0)] = Raise IndexError /\
  exists c, _get_centroid (rows sample_frame) = Ok c /\ fst c * 3 = 0 + 1 + 2.
Proof.
  split.
  - apply (proj1 (get_centroid_outcomes [(0, 0); (1, 0)])). cbn. lia.
  - destruct (proj2 (get_centroid_outcomes (rows sample_frame)) ltac:(cbn; lia))
      as (c & Hc & _ & Hx & _).
    exists c. split; [exact Hc | exact Hx].
Defined.


(** ** Binary64: the min-max step on equal values, and overflow *)

Section Binary64.

Import PrimFloat.

Lemma SF64sub_diag (x : SpecFloat.spec_float) :
  FloatAxioms.SF64sub x x = SpecFloat.S754_nan \/
  FloatAxioms.SF64sub x x = SpecFloat.S754_zero false.
Proof.
  destruct x as [s|s| |s m e]; cbn.
  - right. now destruct s.
  - left. now destruct s.
  - now left.
  - right. rewrite Z.min_id, Z.sub_diag. reflexivity.
Qed.

(** A value minus itself is zero or NaN, and each of them over itself is NaN. *)
Lemma zero_range_division (v : float) : div (sub v v) (sub v v) = nan.
Proof.
  apply FloatAxioms.Prim2SF_inj.
  rewrite FloatAxioms.div_spec, FloatAxioms.sub_spec.
  destruct (SF64sub_diag (FloatOps.Prim2SF v)) as [-> | ->]; reflexivity.
Qed.

Lemma minimum_same (v : float) : F64.minimum v v = v.
Proof. unfold F64.minimum. now destruct (_ || _)%bool. Qed.

Lemma maximum_same (v : float) : F64.maximum v v = v.
Proof. unfold F64.maximum. now destruct (_ || _)%bool. Qed.

Lemma fold_same {A : Type} (f : A -> A -> A) (v : A) (n : nat) :
  f v v = v -> fold_left f (repeat v n) v = v.
Proof.
  intros Hf. induction n as [|n IH]; [reflexivity|]. simpl. now rewrite Hf.
Qed.

Lemma all_same_repeat {A : Type} (l : list A) (v : A) :
  (forall x, In x l -> x = v) -> l = repeat v (length l).
Proof.
  induction l as [|y l IH]; intros H; [reflexivity|]. simpl.
  rewrite <- (H y (or_introl eq_refl)). f_equal.
  rewrite (H y (or_introl eq_refl)).
  apply IH. intros x Hx. apply H. now right.
Qed.

Lemma f64_separate_loop (data : list (float * float)) (x y : list float) :
  fold_left (fun acc points => (fst acc ++ [fst points], snd acc ++ [snd points]))
            data (x, y)
  = (x ++ map fst data, y ++ map snd data).
Proof.
  revert x y; induction data as [|p data IH]; intros x y; simpl.
  - now rewrite !app_nil_r.
  - rewrite IH, <- !app_assoc. reflexivity.
Qed.

Lemma f64_rows_length (n : nat) : forall l : list float,
  length l = (2 * n)%nat -> length (F64.rows l) = n.
Proof.
  induction n as [|n IH]; intros l Hl.
  - destruct l; [reflexivity | discriminate].
  - destruct l as [|x [|y t]]; try (simpl in Hl; lia).
    simpl in Hl. simpl. rewrite IH; [reflexivity | lia].
Qed.

(** [_separate_xy] returns 84 values or raises. *)
Lemma f64_separate_length (data sep : list float) :
  F64._separate_xy data = Ok sep -> length sep = 84%nat.
Proof.
  unfold F64._separate_xy, F64.reshape.
  destruct (Nat.eqb (length (skipn 6 data)) (42 * 2)) eqn:Hlen; [|discriminate].
  apply Nat.eqb_eq in Hlen. cbn [bind].
  rewrite f64_separate_loop. cbn [fst snd app F64.concatenate concat].
  intros H. replace sep with
    (map fst (F64.rows (skipn 6 data)) ++ map snd (F64.rows (skipn 6 data)) ++ [])
    by congruence.
  rewrite !length_app, !length_map, (f64_rows_length 42) by exact Hlen.
  reflexivity.
Qed.

Lemma f64_quotients_equal (v : float) (m : nat) :
  map (fun x => div (sub x v) (sub v v)) (repeat v m) = repeat nan m.
Proof.
  induction m as [|m IH]; [reflexivity|]. cbn [repeat map].
  now rewrite IH, zero_range_division.
Qed.

(** The min-max step on copies of one value: whatever the value is, every
    quotient is NaN and nothing is raised. *)
Lemma f64_clean_equal (v : float) (n : nat) :
  (lo <- F64.min (repeat v (S n)) ;;
   range <- F64.ptp (repeat v (S n)) ;;
   Ok (map (fun x => div (sub x lo) range) (repeat v (S n))))
  = Ok (repeat nan (S n)).
Proof.
  assert (Hmin : F64.min (repeat v (S n)) = Ok v).
  { cbn [repeat F64.min]. now rewrite (fold_same F64.minimum v n (minimum_same v)). }
  assert (Hmax : F64.max (repeat v (S n)) = Ok v).
  { cbn [repeat F64.max]. now rewrite (fold_same F64.maximum v n (maximum_same v)). }
  unfold F64.ptp. rewrite Hmin, Hmax. cbn [bind].
  now rewrite f64_quotients_equal.
Qed.

Variable hypot : float -> float -> float.

Lemma f64_normalize_stages (self : F64.Normalizer) (data : list float) :
  F64.normalize_based_on_shoulders hypot self data
  = (scaled_data <- F64.scaled_stage hypot self data ;;
     F64._clean_data scaled_data).
Proof.
  unfold F64.normalize_based_on_shoulders, F64.scaled_stage.
  destruct (F64.reshape 45 data) as [pts|e]; [|reflexivity]. cbn [bind].
  destruct (F64._get_adjustment_distances (firstn 3 pts)); reflexivity.
Qed.

End Binary64.

(** C5, as the code has it.  Whenever the 84 pre-normalization values that the
    code computes are one and the same number, [_clean_data] carries out the
    min-max division all the same: no failure is raised and the Normalizer
    returns 84 values, every one of them NaN.  This holds in binary64, for
    whatever [math.hypot] returns. *)
Theorem equal_values_all_nan
        (hypot : PrimFloat.float -> PrimFloat.float -> PrimFloat.float)
        (self : F64.Normalizer) (data sep : list PrimFloat.float)
        (v : PrimFloat.float) :
  F64.pre_normalization hypot self data = Ok sep ->
  (forall x, In x sep -> x = v) ->
  F64.normalize_based_on_shoulders hypot self data
  = Ok (repeat PrimFloat.nan 84).
Proof.
  intros Hpre Hsame. rewrite f64_normalize_stages.
  unfold F64.pre_normalization in Hpre.
  destruct (F64.scaled_stage hypot self data) as [scaled|e]; [|discriminate].
  cbn [bind] in *. unfold F64._clean_data. rewrite Hpre. cbn [bind].
  pose proof (f64_separate_length scaled sep Hpre) as Hlen.
  rewrite (all_same_repeat sep v Hsame), Hlen.
  apply (f64_clean_equal v 83).
Qed.

Lemma equal_values_all_nan_witness :
  F64.normalize_based_on_shoulders F64.hypot_rounded F64.default_normalizer
    F64.end_to_end_frame
  = Ok (repeat PrimFloat.nan 84).
Proof.
  eapply (equal_values_all_nan F64.hypot_rounded F64.default_normalizer
            F64.end_to_end_frame).
  - vm_compute. reflexivity.
  - intros x Hx.
    repeat (destruct Hx as [<-|Hx]; [reflexivity|]). destruct Hx.
Defined.

